(** * mangautils: booklet imposition and image placement

    A shallow embedding of [mangautils.py] (the [MangaPDF] class,
    [build_pdf], [iter_img_paths] and [split_images]) together with the
    properties of the imposition plan, the page numbering, the padding,
    the placement geometry, the image registry and the files written.

    Conventions of the embedding:
    - Python [int] is [Z]; list lengths are injected into [Z] where the
      source does arithmetic on them.
    - Python [float] arithmetic in [write_image] is idealised as exact
      rational arithmetic over [Q]; rounding to binary64 is not modelled.
      True division raises [ZeroDivisionError] on a zero divisor, as in
      Python.
    - The dictionary [self.images] is a [gmap string info].
    - Exceptions are values of [exn]; a method of [MangaPDF] is a function
      from the object's state to either an exception or a result with the
      new state.
    - What the program obtains from FPDF, Pillow, pathlib, natsort and the
      file system (the image header parsers, the font table, the scale
      factor, the sorted list of image paths, whether a file can be
      written or an image saved) is a parameter of the model. *)

From Stdlib Require Import ZArith QArith Qfield Lia Lqa String Ascii DecimalString.
From stdpp Require Import base list gmap strings fin_maps.

Local Open Scope Z_scope.

(** [lia] also decides goals with [/] and [mod] by a constant. *)
Ltac Zify.zify_post_hook ::= Z.to_euclidean_division_equations.

(** ** Python list primitives used by [build_pdf] *)

Module Py.

(** [len(l)] as a Python integer. *)
Definition len {A} (l : list A) : Z := Z.of_nat (length l).

(** [[x] * n]: the empty list when [n <= 0]. *)
Definition repeat_list {A} (x : A) (n : Z) : list A := replicate (Z.to_nat n) x.

(** [list(enumerate(l, start))]. *)
Fixpoint enumerate {A} (l : list A) (start : Z) : list (Z * A) :=
  match l with
  | [] => []
  | x :: l' => (start, x) :: enumerate l' (start + 1)
  end.

(** One bound of a slice, clamped as CPython's [PySlice_AdjustIndices]
    does: a negative bound counts from the end, and what is still out of
    range is clamped to the first position the walk may take. *)
Definition adjust (length step : Z) (bound : option Z) (default : Z) : Z :=
  match bound with
  | None => default
  | Some v =>
      if v <? 0 then
        let v' := v + length in
        if v' <? 0 then (if step <? 0 then -1 else 0) else v'
      else if length <=? v then (if step <? 0 then length - 1 else length)
      else v
  end.

(** The number of positions a slice visits, once its bounds are adjusted. *)
Definition slice_length (start stop step : Z) : Z :=
  if step <? 0 then
    if stop <? start then (start - stop - 1) / (- step) + 1 else 0
  else
    if start <? stop then (stop - start - 1) / step + 1 else 0.

(** The positions that [slice(start, stop, step)] visits in a list of the
    given length, as [slice.indices] and [range] compute them.
    [step] is never [0] here (Python raises [ValueError] for it; the
    source only uses the constants [2] and [-2]). *)
Definition slice_indices (length : Z) (start stop : option Z) (step : Z) : list Z :=
  let start' := adjust length step start (if step <? 0 then length - 1 else 0) in
  let stop' := adjust length step stop (if step <? 0 then -1 else length) in
  let n := slice_length start' stop' step in
  (λ k, start' + Z.of_nat k * step) <$> seq 0 (Z.to_nat n).

(** [l[i]] for an index that [slice_indices] produced. *)
Definition item {A} (l : list A) (i : Z) : option A :=
  if i <? 0 then None else l !! Z.to_nat i.

(** [l[start:stop:step]]. *)
Definition slice {A} (l : list A) (start stop : option Z) (step : Z) : list A :=
  omap (item l) (slice_indices (len l) start stop step).

End Py.

(** ** Paths

    A [pathlib.Path] as the program observes it: [str(path)] and
    [path.suffix]. *)

Record Path := mkPath { path_str : string; suffix : string }.

(** ** The imposition plan of [build_pdf] *)

Section Plan.

Context {A : Type}.

(** [img_paths = blanks + natsorted(iter_img_paths(imgs_path))]; the
    argument [sorted] is the naturally sorted list of image files. *)
Definition img_paths (sorted : list A) (num_blanks : Z) : list (option A) :=
  Py.repeat_list None num_blanks ++ (Some <$> sorted).

Definition empty_pages (sorted : list A) (num_blanks : Z) : list (option A) :=
  Py.repeat_list None ((4 - Py.len (img_paths sorted num_blanks) `mod` 4) `mod` 4).

Definition padded_img_paths (sorted : list A) (num_blanks : Z) : list (option A) :=
  img_paths sorted num_blanks ++ empty_pages sorted num_blanks.

(** The four sequences of one job: lines 85 to 91 of the source, from the
    padded list on. *)
Record plan := mkPlan {
  back_left_pages : list (Z * option A);
  back_right_pages : list (Z * option A);
  front_left_pages : list (Z * option A);
  front_right_pages : list (Z * option A)
}.

Definition num_pages (padded : list (option A)) : Z := Py.len padded.
Definition middle_index (padded : list (option A)) : Z := num_pages padded / 2.
Definition page_info (padded : list (option A)) (num_blanks : Z) : list (Z * option A) :=
  Py.enumerate padded (1 - num_blanks).

Definition impose (padded : list (option A)) (num_blanks : Z) : plan :=
  let num_pages := num_pages padded in
  let middle_index := middle_index padded in
  let page_info := page_info padded num_blanks in
  {| back_right_pages := Py.slice page_info None (Some middle_index) (-2);
     back_left_pages := Py.slice page_info None (Some middle_index) 2;
     front_right_pages := Py.slice page_info (Some 1) (Some middle_index) 2;
     front_left_pages :=
       Py.slice page_info (Some (num_pages - 2)) (Some (middle_index - 1)) (-2) |}.

End Plan.

Arguments plan : clear implicits.

(** The positions of [page_info] each slice visits. *)
Definition back_right_indices (n : Z) : list Z :=
  Py.slice_indices n None (Some (n / 2)) (-2).
Definition back_left_indices (n : Z) : list Z :=
  Py.slice_indices n None (Some (n / 2)) 2.
Definition front_right_indices (n : Z) : list Z :=
  Py.slice_indices n (Some 1) (Some (n / 2)) 2.
Definition front_left_indices (n : Z) : list Z :=
  Py.slice_indices n (Some (n - 2)) (Some (n / 2 - 1)) (-2).


(** *** The index sequences as the specification words them

    The specification describes each of the four sequences as a walk over
    the slot indices: a first index, a step of two, and a bound at the
    middle. [walk] is that description, to be compared with what the
    slices of [impose] visit. *)

Fixpoint walk (fuel : nat) (i step : Z) (in_range : Z → bool) : list Z :=
  match fuel with
  | O => []
  | S fuel' => if in_range i then i :: walk fuel' (i + step) step in_range else []
  end.

(** back-left: [0, 2, 4, ...] strictly below the middle, increasing. *)
Definition spec_back_left (n : Z) : list Z :=
  walk (Z.to_nat n) 0 2 (λ i, i <? n / 2).

(** back-right: [n - 1, n - 3, ...] strictly above the middle, decreasing. *)
Definition spec_back_right (n : Z) : list Z :=
  walk (Z.to_nat n) (n - 1) (-2) (λ i, n / 2 <? i).

(** front-left: [n - 2, n - 4, ...] down to and including the middle. *)
Definition spec_front_left (n : Z) : list Z :=
  walk (Z.to_nat n) (n - 2) (-2) (λ i, n / 2 <=? i).

(** front-right: [1, 3, 5, ...] strictly below the middle, increasing. *)
Definition spec_front_right (n : Z) : list Z :=
  walk (Z.to_nat n) 1 2 (λ i, i <? n / 2).

(** The worked example: six image files, no leading blank. *)
Definition six_pages : list Path :=
  [ mkPath "m/1.jpg" ".jpg"; mkPath "m/2.jpg" ".jpg"; mkPath "m/3.jpg" ".jpg";
    mkPath "m/4.png" ".png"; mkPath "m/5.png" ".png"; mkPath "m/6.jpeg" ".jpeg" ].

(** ** Exceptions *)

Inductive exn :=
| ValueError (msg : string)   (* raised by the source itself *)
| ZeroDivisionError           (* a true division by zero *)
| LibraryError (name : string). (* raised inside FPDF while reading or writing a file *)

Inductive result (A : Type) :=
| Ok (a : A)
| Raise (e : exn).

Arguments Ok {A} a.
Arguments Raise {A} e.

(** Python's [a / b] on numbers, over the rationals: the quotient is exact
    where Python rounds it to a float. A quotient of integers too large
    for a float, which Python refuses with [OverflowError], is outside
    this model: the sizes a JPEG or PNG header declares are below
    [2 ^ 32]. *)
Definition truediv (a b : Q) : result Q :=
  if Qeq_bool b 0 then Raise ZeroDivisionError else Ok (a / b)%Q.

(** [str(n)] for an integer. *)
Definition str (n : Z) : string := NilZero.string_of_int (Z.to_int n).

(** ** The class [MangaPDF] *)

Module MangaPDF.

(** An entry of [self.images]: the keys ["w"], ["h"] and ["i"] of the
    dictionary the header parser returns (the pixel data is not modelled). *)
Record info := mkInfo { info_w : Z; info_h : Z; info_i : Z }.

(** What [MangaPDF] inherits from [FPDF]: the two header parsers ([None]
    when the parser raises), the scale factor [self.k], the page height
    [self.h], the font size and the character widths of the current font. *)
Class FPDF := {
  _parsejpg : string → option info;
  _parsepng : string → option info;
  self_k : Q;
  self_h : Q;
  font_size : Q;
  current_font_cw : ascii → Q
}.

(** The lines [_out] writes, kept as data: the numbers are the ones the
    source formats (before rounding to two decimals). *)
Inductive op :=
| DrawImage (a d e f : Q) (i : Z)      (* q a 0 0 d e f cm /Ii Do Q *)
| ShowText (tx ty : Q) (page_num : Z). (* BT tx ty Td (page_num) Tj ET *)

(** The part of the object the source reads and writes: the image
    registry, the pages in order (the last one is the current page) and
    the buffer that receives output while no page is open. *)
Record state := mkState {
  images : gmap string info;
  pages : list (list op);
  buffer : list op
}.

(** The rectangle an image is drawn in. *)
Record rect := mkRect { x : Q; y : Q; w : Q; h : Q }.

Definition page_height : Q := 210.
Definition page_width : Q := 297.
Definition image_margin : Q := 4.2.
Definition text_margin : Q := 7.

(** Methods: state passing with exceptions. *)
Definition M (A : Type) : Type := state → result (A * state).

Definition ret {A} (a : A) : M A := λ s, Ok (a, s).

Definition bind {A B} (m : M A) (f : A → M B) : M B :=
  λ s, match m s with
       | Ok (a, s') => f a s'
       | Raise e => Raise e
       end.

Definition raise {A} (e : exn) : M A := λ _, Raise e.

Definition lift {A} (r : result A) : M A :=
  λ s, match r with
       | Ok a => Ok (a, s)
       | Raise e => Raise e
       end.

Notation "'let*' a := m 'in' f" := (bind m (λ a, f))
  (at level 10, a name, m at level 100, f at level 200).
Notation "m ;; f" := (bind m (λ _, f))
  (at level 100, f at level 200, right associativity).

(** Result-level sequencing, for code that raises but has no state. *)
Definition rbind {A B} (r : result A) (f : A → result B) : result B :=
  match r with
  | Ok a => f a
  | Raise e => Raise e
  end.

Notation "'let?' a := r 'in' f" := (rbind r (λ a, f))
  (at level 10, a name, r at level 100, f at level 200).

(** Lines 29 to 44 of [write_image]: the rectangle for an image of
    [iw] by [ih] pixels on the left or the right half of the sheet. *)
Definition place (iw ih : Z) (right_side : bool) : result rect :=
  let? image_ratio := truediv (inject_Z iw) (inject_Z ih) in
  let pw := (page_width / 2 - image_margin - image_margin)%Q in
  let ph := (page_height - image_margin - image_margin)%Q in
  let? page_ratio := truediv pw ph in
  let px := ((if right_side then page_width / 2 else 0) + image_margin)%Q in
  let py := image_margin in
  if Qlt_le_dec page_ratio image_ratio then
    let? r := truediv page_ratio image_ratio in
    let w := pw in
    let h := (ph * r)%Q in
    let x := px in
    let y := (py + (ph - h) / 2)%Q in
    Ok {| x := x; y := y; w := w; h := h |}
  else
    let? r := truediv image_ratio page_ratio in
    let w := (pw * r)%Q in
    let h := ph in
    let x := (px + (pw - w) / 2)%Q in
    let y := py in
    Ok {| x := x; y := y; w := w; h := h |}.

(** The regions the specification speaks of: a half of the sheet, a
    region reduced by a margin on its four sides, and containment of one
    rectangle in another. *)
Definition half_sheet (right_side : bool) : rect :=
  {| x := if right_side then (page_width / 2)%Q else 0%Q; y := 0;
     w := (page_width / 2)%Q; h := page_height |}.

Definition shrink (margin : Q) (r : rect) : rect :=
  {| x := (x r + margin)%Q; y := (y r + margin)%Q;
     w := (w r - 2 * margin)%Q; h := (h r - 2 * margin)%Q |}.

Definition drawable (right_side : bool) : rect := shrink image_margin (half_sheet right_side).

Definition inside (r d : rect) : Prop :=
  (x d <= x r)%Q ∧ (x r + w r <= x d + w d)%Q ∧
  (y d <= y r)%Q ∧ (y r + h r <= y d + h d)%Q.

(** [FPDF._out]: append to the current page, or to the buffer when no
    page is open. *)
Fixpoint append_last (o : op) (ps : list (list op)) : list (list op) :=
  match ps with
  | [] => []
  | [p] => [p ++ [o]]
  | p :: ps' => p :: append_last o ps'
  end.

Definition _out (o : op) : M unit :=
  λ s, match pages s with
       | [] => Ok (tt, {| images := images s; pages := []; buffer := buffer s ++ [o] |})
       | _ => Ok (tt, {| images := images s; pages := append_last o (pages s);
                         buffer := buffer s |})
       end.

(** [FPDF.add_page]: open a new page (the state FPDF itself writes at the
    start of a page is not modelled). *)
Definition add_page : M unit :=
  λ s, Ok (tt, {| images := images s; pages := pages s ++ [[]]; buffer := buffer s |}).

Definition get_images : M (gmap string info) := λ s, Ok (images s, s).

Definition set_image (name : string) (inf : info) : M unit :=
  λ s, Ok (tt, {| images := <[name := inf]> (images s); pages := pages s;
                  buffer := buffer s |}).

Section Methods.

Context `{FPDF}.

(** The header parser [write_image] chooses from the suffix. *)
Definition parse (path : Path) : M info :=
  let name := path_str path in
  if (suffix path =? ".jpg")%string || (suffix path =? ".jpeg")%string then
    match _parsejpg name with
    | Some inf => ret inf
    | None => raise (LibraryError name)
    end
  else if (suffix path =? ".png")%string then
    match _parsepng name with
    | Some inf => ret inf
    | None => raise (LibraryError name)
    end
  else raise (ValueError "invalid image extension").

Definition write_image (path : Path) (right_side : bool) : M unit :=
  let name := path_str path in
  let* inf := parse path in
  let* imgs := get_images in
  let i := Z.of_nat (size imgs) + 1 in
  let inf := {| info_w := info_w inf; info_h := info_h inf; info_i := i |} in
  set_image name inf;;
  let iw := info_w inf in
  let ih := info_h inf in
  let* r := lift (place iw ih right_side) in
  _out (DrawImage (w r * self_k) (h r * self_k) (x r * self_k)
          ((self_h - (y r + h r)) * self_k) i).

Definition text_width (text : string) : Q :=
  (foldr Qplus 0 (current_font_cw <$> list_ascii_of_string text) * font_size / 1000)%Q.

Definition write_page_num (page_num : Z) (right_side : bool) : M unit :=
  let x := if right_side
           then (page_width - text_margin - text_width (str page_num))%Q
           else text_margin in
  let y := (page_height - text_margin)%Q in
  _out (ShowText (x * self_k) ((self_h - y) * self_k) page_num).

(** One turn of the loop of [__init__]. *)
Definition add_sheet (left right : Z * option Path) : M unit :=
  let '(left_page_num, left_img_path) := left in
  let '(right_page_num, right_img_path) := right in
  add_page;;
  (match left_img_path with
   | Some p => write_image p false;; write_page_num left_page_num false
   | None => ret tt
   end);;
  match right_img_path with
  | Some p => write_image p true;; write_page_num right_page_num true
  | None => ret tt
  end.

Fixpoint for_each {A} (f : A → M unit) (l : list A) : M unit :=
  match l with
  | [] => ret tt
  | a :: l' => f a;; for_each f l'
  end.

(** The object [FPDF.__init__] leaves: no image, no page. *)
Definition empty : state := {| images := ∅; pages := []; buffer := [] |}.

Definition __init__ (left_pages right_pages : list (Z * option Path)) : result state :=
  match for_each (λ lr, add_sheet lr.1 lr.2) (zip left_pages right_pages) empty with
  | Ok (_, s) => Ok s
  | Raise e => Raise e
  end.

End Methods.

(** An image [write_image] can draw: its header is read and its height
    is not zero. *)
Definition embeddable `{FPDF} (path : Path) : bool :=
  match parse path empty with
  | Ok (inf, _) => negb (info_h inf =? 0)
  | Raise _ => false
  end.

(** What a finished document shows: its content in order, the page
    numbers printed and the image resources referred to. *)
Definition content (s : state) : list op := concat (pages s).

Definition printed_page_num (o : op) : option Z :=
  match o with
  | ShowText _ _ n => Some n
  | DrawImage _ _ _ _ _ => None
  end.

Definition image_ref (o : op) : option Z :=
  match o with
  | DrawImage _ _ _ _ i => Some i
  | ShowText _ _ _ => None
  end.

Definition page_nums (s : state) : list Z := omap printed_page_num (content s).
Definition image_refs (s : state) : list Z := omap image_ref (content s).

(** The resource numbers the registry defines at the end. *)
Definition registered (s : state) : list Z := info_i <$> (map_to_list (images s)).*2.

(** [FPDF.close], which [output] calls first: a document without a page
    gets one. *)
Definition close (s : state) : state :=
  match pages s with
  | [] => {| images := images s; pages := [[]]; buffer := buffer s |}
  | _ => s
  end.

(** Whether [open(name, "wb")] succeeds is up to the file system. *)
Class Disk := { can_write : string → bool }.

(** [FPDF.output(name, "F")]: the closed document becomes the content of
    the file [name]; the files are a map from names to documents. *)
Definition output `{Disk} (s : state) (name : string) (files : gmap string state)
  : result (gmap string state) :=
  if can_write name then Ok (<[name := close s]> files)
  else Raise (LibraryError name).

End MangaPDF.

(** The number of a slot that holds an image. *)
Definition placed_number {A} (slot : Z * option A) : option Z :=
  match slot.2 with
  | Some _ => Some slot.1
  | None => None
  end.

(** A slot [__init__] can put on a sheet: blank, or an image that can be
    drawn. *)
Definition drawable_slot `{MangaPDF.FPDF} (slot : Z * option Path) : Prop :=
  match slot.2 with
  | Some path => MangaPDF.embeddable path = true
  | None => True
  end.

(** The page numbers a sheet prints: left, then right, blanks left out. *)
Definition sheet_numbers (sheet : (Z * option Path) * (Z * option Path)) : list Z :=
  option_list (placed_number sheet.1) ++ option_list (placed_number sheet.2).

(** The registry keys a sheet uses. *)
Definition slot_names (slot : Z * option Path) : list string :=
  path_str <$> option_list slot.2.

Definition sheet_names (sheet : (Z * option Path) * (Z * option Path)) : list string :=
  slot_names sheet.1 ++ slot_names sheet.2.

(** Every image reference in the content is a number the registry defines,
    as often as it is used, and the registry numbers its entries
    [1 .. size]. *)
Definition registry_consistent (s : MangaPDF.state) : Prop :=
  MangaPDF.image_refs s ≡ₚ MangaPDF.registered s ∧
  MangaPDF.registered s ≡ₚ
    (λ k : nat, Z.of_nat k + 1) <$> seq 0 (size (MangaPDF.images s)).

(** An FPDF for examples: millimetres, a sheet 210 high, Times bold at 12
    points with digits 500 wide, and every file a 600 by 800 image. *)
Definition sample_fpdf : MangaPDF.FPDF :=
  {| MangaPDF._parsejpg := λ _, Some (MangaPDF.mkInfo 600 800 0);
     MangaPDF._parsepng := λ _, Some (MangaPDF.mkInfo 600 800 0);
     MangaPDF.self_k := (72 / 25.4)%Q;
     MangaPDF.self_h := 210%Q;
     MangaPDF.font_size := (12 / (72 / 25.4))%Q;
     MangaPDF.current_font_cw := λ _, 500%Q |}.

(** ** [build_pdf] *)

(** The directory [imgs_path] as [build_pdf] reads it: [str(imgs_path)],
    the string in front of its last component (empty, or ending in the
    separator), its [name], which is empty for [Path('.')] and for the
    root, and its [stem]. *)
Record Dir := mkDir {
  dir_str : string;
  dir_parent : string;
  dir_name : string;
  dir_stem : string
}.

(** [imgs_path.with_name(name)], as a string: pathlib refuses a path whose
    own name is empty (the message is the one of a POSIX path). *)
Definition with_name (imgs_path : Dir) (name : string) : result string :=
  if (dir_name imgs_path =? "")%string
  then Raise (ValueError ("PosixPath('" ++ dir_str imgs_path ++ "') has an empty name")%string)
  else Ok (dir_parent imgs_path ++ name)%string.

(** The name of an output file: [dir_stem] followed by [ending], next to
    the directory. *)
Definition pdf_path (imgs_path : Dir) (ending : string) : string :=
  (dir_parent imgs_path ++ dir_stem imgs_path ++ ending)%string.

Section Build.

Context `{MangaPDF.FPDF} `{MangaPDF.Disk}.

(** The two objects the constructor calls of lines 92 and 93 build from
    the plan of a padded list, back first. Naming and writing the files is
    left to [write_document] below. *)
Definition documents (padded : list (option Path)) (num_blanks : Z)
  : result (MangaPDF.state * MangaPDF.state) :=
  let p := impose padded num_blanks in
  match MangaPDF.__init__ (back_left_pages p) (back_right_pages p) with
  | Raise e => Raise e
  | Ok back =>
      match MangaPDF.__init__ (front_left_pages p) (front_right_pages p) with
      | Raise e => Raise e
      | Ok front => Ok (back, front)
      end
  end.

(** Line 92, and line 93 with the other ending: the object is built, then
    the file is named, then the document is closed and written. *)
Definition write_document (imgs_path : Dir) (left_pages right_pages : list (Z * option Path))
    (ending : string) (files : gmap string MangaPDF.state)
  : result (gmap string MangaPDF.state) :=
  match MangaPDF.__init__ left_pages right_pages with
  | Raise e => Raise e
  | Ok doc =>
      match with_name imgs_path (dir_stem imgs_path ++ ending)%string with
      | Raise e => Raise e
      | Ok name => MangaPDF.output doc name files
      end
  end.

(** Lines 81 to 93, from the sorted list of image files: the back document
    is written before the front one is built. The result is the files
    afterwards. *)
Definition build_pdf (imgs_path : Dir) (sorted : list Path) (num_blanks : Z)
    (files : gmap string MangaPDF.state)
  : result (gmap string MangaPDF.state) :=
  let p := impose (padded_img_paths sorted num_blanks) num_blanks in
  match write_document imgs_path (back_left_pages p) (back_right_pages p) "-back.pdf" files with
  | Raise e => Raise e
  | Ok files' =>
      write_document imgs_path (front_left_pages p) (front_right_pages p) "-front.pdf" files'
  end.

End Build.

(** A document of [q] sheets with nothing on them. *)
Definition blank_document (q : nat) : MangaPDF.state :=
  {| MangaPDF.images := ∅; MangaPDF.pages := replicate q []; MangaPDF.buffer := [] |}.

(** ** [iter_img_paths]

    The tree under [imgs_path] is the list of its paths in the order
    [rglob] walks them, each with the answer of [is_file()]. A pattern
    ["*.ext"] matches a path whose string ends in [".ext"] (matching is
    case-sensitive, as on POSIX). *)

Definition ends_with (ending s : string) : bool :=
  bool_decide (reverse (list_ascii_of_string ending)
                 `prefix_of` reverse (list_ascii_of_string s)).

Definition img_extensions : list string := ["jpg"; "jpeg"; "png"].

Definition rglob (listing : list (Path * bool)) (ext : string) : list (Path * bool) :=
  filter (λ entry, ends_with ("." ++ ext) (path_str entry.1) = true) listing.

Definition iter_img_paths (listing : list (Path * bool)) : list Path :=
  (filter (λ entry : Path * bool, entry.2 = true)
     (img_extensions ≫= rglob listing)).*1.

(** A path the three patterns look for. *)
Definition is_img_name (s : string) : bool :=
  ends_with ".jpg" s || ends_with ".jpeg" s || ends_with ".png" s.

(** [build_pdf] from the directory: the files found under [imgs_path],
    sorted by [natsorted] (a parameter), then as before. *)
Definition build_pdf_dir `{MangaPDF.FPDF} `{MangaPDF.Disk} (natsorted : list Path → list Path)
    (imgs_path : Dir) (listing : list (Path * bool)) (num_blanks : Z)
    (files : gmap string MangaPDF.state)
  : result (gmap string MangaPDF.state) :=
  build_pdf imgs_path (natsorted (iter_img_paths listing)) num_blanks files.

(** ** [split_images]

    An image is known by its size, which [split_images] reads, and its
    mode, which [crop] keeps and [save] looks at; the files are a map from
    [str(path)] to the image stored there. Pillow's [crop] gives an image
    of the size of the box. Whether [save] succeeds is Pillow's and the
    file system's answer for this image and this path (a parameter): it
    takes an encoder for the suffix that accepts the mode, and a file that
    can be created at the path. *)

Module Split.

Record Image := mkImage { width : Z; height : Z; mode : string }.

(** A box [(left, upper, right, lower)]. *)
Definition box : Type := Z * Z * Z * Z.

Definition crop (img : Image) (b : box) : Image :=
  let '(x0, y0, x1, y1) := b in
  {| width := x1 - x0; height := y1 - y0; mode := mode img |}.

Inductive error :=
| CannotOpen (name : string)        (* Image.open: no image at this path *)
| CannotSave (name : string).        (* save: no encoder, or no file *)

Inductive outcome (A : Type) :=
| Done (a : A)
| Failed (e : error).

Arguments Done {A} a.
Arguments Failed {A} e.

Class Pillow := { can_save : Image → Path → bool }.

(** [path.with_stem(path.stem + letter)], for a path whose string ends in
    its suffix: the letter goes in front of the suffix. *)
Definition with_stem_plus (path : Path) (letter : string) : Path :=
  let base := String.substring 0 (String.length (path_str path) - String.length (suffix path))
                (path_str path) in
  mkPath (base ++ letter ++ suffix path) (suffix path).

Definition save `{Pillow} (img : Image) (path : Path) (fs : gmap string Image)
  : outcome (gmap string Image) :=
  if can_save img path then Done (<[path_str path := img]> fs)
  else Failed (CannotSave (path_str path)).

(** The two boxes [split_images] crops from a landscape image: the right
    half (saved as [a]) and the left half (saved as [b]). *)
Definition halves (img : Image) : option (box * box) :=
  if height img <? width img then
    let mid := width img / 2 in
    Some ((mid, 0, width img, height img), (0, 0, mid, height img))
  else None.

(** One turn of the loop. *)
Definition split_image `{Pillow} (img_path : Path) (fs : gmap string Image)
  : outcome (gmap string Image) :=
  match fs !! path_str img_path with
  | None => Failed (CannotOpen (path_str img_path))
  | Some img =>
      match halves img with
      | Some (box_a, box_b) =>
          match save (crop img box_a) (with_stem_plus img_path "a") fs with
          | Failed e => Failed e
          | Done fs1 =>
              match save (crop img box_b) (with_stem_plus img_path "b") fs1 with
              | Failed e => Failed e
              | Done fs2 => Done (delete (path_str img_path) fs2)
              end
          end
      | None => Done fs
      end
  end.

Fixpoint split_each `{Pillow} (paths : list Path) (fs : gmap string Image)
  : outcome (gmap string Image) :=
  match paths with
  | [] => Done fs
  | img_path :: paths' =>
      match split_image img_path fs with
      | Failed e => Failed e
      | Done fs' => split_each paths' fs'
      end
  end.

(** [split_images]: the paths are those found when the loop starts. *)
Definition split_images `{Pillow} (listing : list (Path * bool)) (fs : gmap string Image)
  : outcome (gmap string Image) :=
  split_each (iter_img_paths listing) fs.

End Split.

(** A Pillow for examples: JPEG takes the modes L, RGB and CMYK, PNG the
    modes L, P, RGB and RGBA, and every file can be created. *)
Definition sample_pillow : Split.Pillow :=
  {| Split.can_save := λ img path,
       let m := Split.mode img in
       if (suffix path =? ".jpg")%string || (suffix path =? ".jpeg")%string
       then (m =? "L")%string || (m =? "RGB")%string || (m =? "CMYK")%string
       else if (suffix path =? ".png")%string
            then (m =? "L")%string || (m =? "P")%string || (m =? "RGB")%string
                 || (m =? "RGBA")%string
            else false |}.

(** A disk every file can be written to, a directory [m] and the current
    directory. *)
Definition sample_disk : MangaPDF.Disk := {| MangaPDF.can_write := λ _, true |}.

Definition sample_dir : Dir :=
  {| dir_str := "m"; dir_parent := ""; dir_name := "m"; dir_stem := "m" |}.

Definition current_dir : Dir :=
  {| dir_str := "."; dir_parent := ""; dir_name := ""; dir_stem := "" |}.

(** An FPDF whose JPEG parser refuses every file and whose PNG parser
    reads a height of zero. *)
Definition corrupt_fpdf : MangaPDF.FPDF :=
  {| MangaPDF._parsejpg := λ _, None;
     MangaPDF._parsepng := λ _, Some (MangaPDF.mkInfo 600 0 0);
     MangaPDF.self_k := (72 / 25.4)%Q;
     MangaPDF.self_h := 210%Q;
     MangaPDF.font_size := (12 / (72 / 25.4))%Q;
     MangaPDF.current_font_cw := λ _, 500%Q |}.

(** A small tree: three images, a directory with an image name and a text
    file. *)
Definition sample_listing : list (Path * bool) :=
  [ (mkPath "m/2.png" ".png", true); (mkPath "m/1.jpg" ".jpg", true);
    (mkPath "m/old.jpg" ".jpg", false); (mkPath "m/notes.txt" ".txt", true);
    (mkPath "m/3.jpeg" ".jpeg", true) ].

(** * Properties *)

(** ** The imposition plan *)

(** *** The index sequences for a list of [4 * q] slots *)

Lemma adjust_in_range (length step v default : Z) :
  0 ≤ v < length → Py.adjust length step (Some v) default = v.
Proof.
  intros Hv. unfold Py.adjust.
  destruct (Z.ltb_spec v 0); [lia|].
  destruct (Z.leb_spec length v); [lia|reflexivity].
Qed.

Lemma half_4q (q : Z) : (4 * q) / 2 = 2 * q.
Proof. lia. Qed.

(** Computes a slice's positions for [4 * q] slots: the empty list for
    [q = 0], otherwise bounds in range and a length of [q]. *)
Ltac slice_indices_tac q :=
  unfold Py.slice_indices; rewrite ?half_4q;
  destruct q as [|q];
  [ reflexivity
  | rewrite !adjust_in_range by lia;
    unfold Py.slice_length, Py.adjust; cbn [Z.ltb Z.opp];
    repeat match goal with
           | |- context [Z.ltb ?a ?b] => destruct (Z.ltb_spec a b)
           end;
    try lia;
    match goal with
    | |- _ <$> seq 0 (Z.to_nat ?n) = _ =>
        replace (Z.to_nat n) with (S q) by lia
    end;
    apply list_fmap_ext; intros ? k _; lia ].

Lemma back_left_indices_4q (q : nat) :
  back_left_indices (4 * Z.of_nat q) = (λ k : nat, 2 * Z.of_nat k) <$> seq 0 q.
Proof. unfold back_left_indices. slice_indices_tac q. Qed.

Lemma back_right_indices_4q (q : nat) :
  back_right_indices (4 * Z.of_nat q) =
  (λ k : nat, 4 * Z.of_nat q - 1 - 2 * Z.of_nat k) <$> seq 0 q.
Proof. unfold back_right_indices. slice_indices_tac q. Qed.

Lemma front_right_indices_4q (q : nat) :
  front_right_indices (4 * Z.of_nat q) = (λ k : nat, 2 * Z.of_nat k + 1) <$> seq 0 q.
Proof. unfold front_right_indices. slice_indices_tac q. Qed.

Lemma front_left_indices_4q (q : nat) :
  front_left_indices (4 * Z.of_nat q) =
  (λ k : nat, 4 * Z.of_nat q - 2 - 2 * Z.of_nat k) <$> seq 0 q.
Proof. unfold front_left_indices. slice_indices_tac q. Qed.

(** *** Enumeration and slicing, element by element *)

Lemma enumerate_length {A} (l : list A) (start : Z) :
  length (Py.enumerate l start) = length l.
Proof. revert start. induction l as [|x l IH]; intros start; simpl; [done|by rewrite IH]. Qed.

Lemma enumerate_lookup {A} (l : list A) (start : Z) (k : nat) :
  Py.enumerate l start !! k = (λ x, (start + Z.of_nat k, x)) <$> l !! k.
Proof.
  revert start k. induction l as [|x l IH]; intros start k; [done|].
  destruct k as [|k]; simpl.
  - by rewrite Z.add_0_r.
  - rewrite IH. destruct (l !! k); simpl; [|done]. do 2 f_equal. lia.
Qed.

Lemma enumerate_fst {A} (l : list A) (start : Z) :
  (Py.enumerate l start).*1 = (λ k : nat, start + Z.of_nat k) <$> seq 0 (length l).
Proof.
  apply list_eq; intros k. rewrite !list_lookup_fmap, enumerate_lookup.
  destruct (l !! k) as [x|] eqn:Hk; simpl.
  - apply lookup_lt_Some in Hk. by rewrite lookup_seq_lt.
  - apply lookup_ge_None in Hk. by rewrite lookup_seq_ge.
Qed.

Lemma enumerate_snd {A} (l : list A) (start : Z) : (Py.enumerate l start).*2 = l.
Proof. revert start. induction l as [|x l IH]; intros start; simpl; [done|by rewrite IH]. Qed.

Lemma len_enumerate {A} (l : list A) (start : Z) : Py.len (Py.enumerate l start) = Py.len l.
Proof. unfold Py.len. by rewrite enumerate_length. Qed.

Lemma item_in_range {A} (l : list A) (i : Z) :
  0 ≤ i < Py.len l → Py.item l i = l !! Z.to_nat i ∧ is_Some (l !! Z.to_nat i).
Proof.
  unfold Py.item, Py.len. intros Hi. destruct (Z.ltb_spec i 0); [lia|].
  split; [done|]. apply lookup_lt_is_Some. lia.
Qed.

(** Selecting the items at positions that are all in range keeps every one
    of them, in order. *)
Lemma omap_item {A} (l : list A) (idxs : list Z) :
  Forall (λ i, 0 ≤ i < Py.len l) idxs →
  length (omap (Py.item l) idxs) = length idxs ∧
  ∀ k i, idxs !! k = Some i → omap (Py.item l) idxs !! k = l !! Z.to_nat i.
Proof.
  induction 1 as [|i idxs Hi _ [IHlen IH]]; [done|].
  destruct (item_in_range l i Hi) as [Heq [x Hx]].
  simpl. rewrite Heq, Hx. simpl. fold (omap (Py.item l) idxs). split; [by rewrite IHlen|].
  intros [|k] j Hj; simpl in *; [by simplify_eq|by apply IH].
Qed.

Lemma slice_progression {A} (l : list A) (f : nat → Z) (q : nat) :
  (∀ k, (k < q)%nat → 0 ≤ f k < Py.len l) →
  length (omap (Py.item l) (f <$> seq 0 q)) = q ∧
  ∀ k, (k < q)%nat → omap (Py.item l) (f <$> seq 0 q) !! k = l !! Z.to_nat (f k).
Proof.
  intros Hf.
  destruct (omap_item l (f <$> seq 0 q)) as [Hlen Hlook].
  { apply Forall_fmap, Forall_seq. intros k Hk. apply Hf. lia. }
  rewrite length_fmap, length_seq in Hlen. split; [done|].
  intros k Hk. apply Hlook. by rewrite list_lookup_fmap, lookup_seq_lt.
Qed.

(** *** The walks of the specification are arithmetic progressions *)

Lemma walk_progression (in_range : Z → bool) (step : Z) (c fuel : nat) (i : Z) :
  (c ≤ fuel)%nat →
  (∀ k : nat, (k < c)%nat → in_range (i + Z.of_nat k * step) = true) →
  (c < fuel)%nat → in_range (i + Z.of_nat c * step) = false →
  walk fuel i step in_range = (λ k : nat, i + Z.of_nat k * step) <$> seq 0 c.
Proof.
  revert fuel i. induction c as [|c IH]; intros fuel i Hle Hin Hlt Hout.
  - destruct fuel as [|fuel]; [lia|]. simpl in *.
    rewrite Z.add_0_r in Hout. by rewrite Hout.
  - destruct fuel as [|fuel]; [lia|]. cbn [walk].
    specialize (Hin 0%nat ltac:(lia)) as Hin0. simpl in Hin0.
    rewrite Z.add_0_r in Hin0. rewrite Hin0.
    cbn [seq fmap list_fmap]. f_equal; [lia|].
    rewrite (IH fuel (i + step)); try lia.
    + rewrite <- fmap_S_seq, <- list_fmap_compose.
      apply list_fmap_ext. intros _ k _. simpl. lia.
    + intros k Hk. rewrite <- (Hin (S k)) by lia. f_equal. lia.
    + rewrite <- Hout. f_equal. lia.
Qed.

(** The same for a walk of the specification, through [walk_progression]. *)
Ltac walk_tac q :=
  rewrite ?half_4q;
  destruct q as [|q]; [reflexivity|];
  match goal with
  | |- walk _ ?i ?step _ = _ <$> seq 0 ?c =>
      rewrite (walk_progression _ step c _ i);
      [ apply list_fmap_ext; intros _ k _; lia
      | lia
      | intros k Hk; first [apply Z.ltb_lt | apply Z.leb_le]; lia
      | lia
      | first [apply Z.ltb_ge | apply Z.leb_gt]; lia ]
  end.

Lemma spec_back_left_4q (q : nat) :
  spec_back_left (4 * Z.of_nat q) = (λ k : nat, 2 * Z.of_nat k) <$> seq 0 q.
Proof. unfold spec_back_left. walk_tac q. Qed.

Lemma spec_back_right_4q (q : nat) :
  spec_back_right (4 * Z.of_nat q) =
  (λ k : nat, 4 * Z.of_nat q - 1 - 2 * Z.of_nat k) <$> seq 0 q.
Proof. unfold spec_back_right. walk_tac q. Qed.

Lemma spec_front_left_4q (q : nat) :
  spec_front_left (4 * Z.of_nat q) =
  (λ k : nat, 4 * Z.of_nat q - 2 - 2 * Z.of_nat k) <$> seq 0 q.
Proof. unfold spec_front_left. walk_tac q. Qed.

Lemma spec_front_right_4q (q : nat) :
  spec_front_right (4 * Z.of_nat q) = (λ k : nat, 2 * Z.of_nat k + 1) <$> seq 0 q.
Proof. unfold spec_front_right. walk_tac q. Qed.

(** *** The four slices of [impose] *)

Lemma impose_slices {A} (padded : list (option A)) (num_blanks : Z) :
  let slots := page_info padded num_blanks in
  let n := num_pages padded in
  back_left_pages (impose padded num_blanks) = omap (Py.item slots) (back_left_indices n) ∧
  back_right_pages (impose padded num_blanks) = omap (Py.item slots) (back_right_indices n) ∧
  front_left_pages (impose padded num_blanks) = omap (Py.item slots) (front_left_indices n) ∧
  front_right_pages (impose padded num_blanks) = omap (Py.item slots) (front_right_indices n).
Proof.
  unfold impose, Py.slice, page_info, middle_index, num_pages; simpl.
  rewrite len_enumerate. done.
Qed.

Lemma progression_at {A} (slots : list A) (f : nat → Z) (q : nat) (pages : list A) :
  pages = omap (Py.item slots) (f <$> seq 0 q) →
  (∀ k, (k < q)%nat → 0 ≤ f k < Py.len slots) →
  length pages = q ∧
  ∀ (k : nat) (i : Z), (f <$> seq 0 q) !! k = Some i → pages !! k = slots !! Z.to_nat i.
Proof.
  intros -> Hf. destruct (slice_progression slots f q Hf) as [Hlen Hlook].
  split; [done|]. intros k i Hk.
  apply list_lookup_fmap_Some in Hk as (j & -> & Hj).
  apply lookup_seq in Hj as [-> Hj]. by apply Hlook.
Qed.

(** The four sequences of a plan of [4 * q] slots, as progressions. *)
Lemma impose_progressions {A} (padded : list (option A)) (num_blanks : Z) (q : nat) :
  Py.len padded = 4 * Z.of_nat q →
  let slots := page_info padded num_blanks in
  let p := impose padded num_blanks in
  (length (back_left_pages p) = q ∧ length (back_right_pages p) = q ∧
   length (front_left_pages p) = q ∧ length (front_right_pages p) = q) ∧
  (∀ (k : nat) (i : Z),
     (((λ k : nat, 2 * Z.of_nat k) <$> seq 0 q) !! k = Some i →
        back_left_pages p !! k = slots !! Z.to_nat i) ∧
     (((λ k : nat, 4 * Z.of_nat q - 1 - 2 * Z.of_nat k) <$> seq 0 q) !! k = Some i →
        back_right_pages p !! k = slots !! Z.to_nat i) ∧
     (((λ k : nat, 4 * Z.of_nat q - 2 - 2 * Z.of_nat k) <$> seq 0 q) !! k = Some i →
        front_left_pages p !! k = slots !! Z.to_nat i) ∧
     (((λ k : nat, 2 * Z.of_nat k + 1) <$> seq 0 q) !! k = Some i →
        front_right_pages p !! k = slots !! Z.to_nat i)).
Proof.
  intros Hn slots p.
  assert (Hlen : Py.len slots = 4 * Z.of_nat q).
  { unfold slots, page_info. by rewrite len_enumerate. }
  destruct (impose_slices padded num_blanks) as (Hbl & Hbr & Hfl & Hfr).
  fold slots p in Hbl, Hbr, Hfl, Hfr.
  unfold num_pages in *. rewrite Hn in *.
  rewrite back_left_indices_4q in Hbl. rewrite back_right_indices_4q in Hbr.
  rewrite front_left_indices_4q in Hfl. rewrite front_right_indices_4q in Hfr.
  apply progression_at in Hbl as [Lbl Hbl]; [|lia].
  apply progression_at in Hbr as [Lbr Hbr]; [|lia].
  apply progression_at in Hfl as [Lfl Hfl]; [|lia].
  apply progression_at in Hfr as [Lfr Hfr]; [|lia].
  split; [done|]. intros k i. repeat split; eauto.
Qed.

(** C1. For a slot list of length [n = 4 * q], the positions the four
    slices of [build_pdf] visit are the walks the specification describes
    (back-left [0, 2, ...] below the middle, back-right [n-1, n-3, ...]
    above the middle, front-left [n-2, n-4, ...] down to and including the
    middle, front-right [1, 3, ...] below the middle); each sequence has
    [q] sheet halves and its [k]-th half is the slot at the [k]-th position
    of its walk. *)
Theorem imposition_sequences {A} (padded : list (option A)) (num_blanks : Z) (q : nat) :
  Py.len padded = 4 * Z.of_nat q →
  let n := num_pages padded in
  let slots := page_info padded num_blanks in
  let p := impose padded num_blanks in
  (back_left_indices n = spec_back_left n ∧
   back_right_indices n = spec_back_right n ∧
   front_left_indices n = spec_front_left n ∧
   front_right_indices n = spec_front_right n) ∧
  (length (back_left_pages p) = q ∧ length (back_right_pages p) = q ∧
   length (front_left_pages p) = q ∧ length (front_right_pages p) = q) ∧
  (∀ (k : nat) (i : Z),
     (spec_back_left n !! k = Some i → back_left_pages p !! k = slots !! Z.to_nat i) ∧
     (spec_back_right n !! k = Some i → back_right_pages p !! k = slots !! Z.to_nat i) ∧
     (spec_front_left n !! k = Some i → front_left_pages p !! k = slots !! Z.to_nat i) ∧
     (spec_front_right n !! k = Some i → front_right_pages p !! k = slots !! Z.to_nat i)).
Proof.
  intros Hn n slots p.
  pose proof (impose_progressions padded num_blanks q Hn) as [Hlens Hlook].
  unfold n, num_pages. rewrite Hn.
  rewrite back_left_indices_4q, back_right_indices_4q,
    front_left_indices_4q, front_right_indices_4q.
  rewrite spec_back_left_4q, spec_back_right_4q, spec_front_left_4q, spec_front_right_4q.
  split; [done|]. split; [exact Hlens|exact Hlook].
Qed.

Lemma imposition_sequences_witness :
  Py.len (padded_img_paths six_pages 0) = 4 * Z.of_nat 2 ∧
  front_left_indices 8 = spec_front_left 8 ∧
  length (back_left_pages (impose (padded_img_paths six_pages 0) 0)) = 2%nat.
Proof.
  split; [reflexivity|].
  pose proof (imposition_sequences (padded_img_paths six_pages 0) 0 2 eq_refl) as Hw.
  exact (conj (proj1 (proj2 (proj2 (proj1 Hw)))) (proj1 (proj1 (proj2 Hw)))).
Defined.

(** The plans for 4 and for 12 slots, slots named by their position. *)
Example impose_4 :
  impose [Some 0%nat; Some 1%nat; Some 2%nat; Some 3%nat] 0 =
  {| back_left_pages := [(1, Some 0%nat)];
     back_right_pages := [(4, Some 3%nat)];
     front_left_pages := [(3, Some 2%nat)];
     front_right_pages := [(2, Some 1%nat)] |}.
Proof. reflexivity. Qed.

Example indices_12 :
  back_left_indices 12 = [0; 2; 4] ∧ back_right_indices 12 = [11; 9; 7] ∧
  front_left_indices 12 = [10; 8; 6] ∧ front_right_indices 12 = [1; 3; 5].
Proof. repeat split. Qed.

(** ** Padding and numbering *)

Lemma len_app {A} (l1 l2 : list A) : Py.len (l1 ++ l2) = Py.len l1 + Py.len l2.
Proof. unfold Py.len. rewrite length_app. lia. Qed.

Lemma len_repeat_list {A} (x : A) (n : Z) : Py.len (Py.repeat_list x n) = Z.max 0 n.
Proof. unfold Py.len, Py.repeat_list. rewrite length_replicate. lia. Qed.

Lemma len_fmap {A B} (f : A → B) (l : list A) : Py.len (f <$> l) = Py.len l.
Proof. unfold Py.len. by rewrite length_fmap. Qed.

Lemma len_nonneg {A} (l : list A) : 0 ≤ Py.len l.
Proof. unfold Py.len. lia. Qed.

Lemma len_img_paths {A} (sorted : list A) (num_blanks : Z) :
  Py.len (img_paths sorted num_blanks) = Z.max 0 num_blanks + Py.len sorted.
Proof. unfold img_paths. by rewrite len_app, len_repeat_list, len_fmap. Qed.

(** A slot of the padded list: a leading blank, an image or a trailing
    blank, by its position. *)
Lemma padded_lookup_blank {A} (sorted : list A) (num_blanks : Z) (i : nat) :
  Z.of_nat i < num_blanks → padded_img_paths sorted num_blanks !! i = Some None.
Proof.
  intros Hi. unfold padded_img_paths, img_paths, Py.repeat_list.
  rewrite <- (assoc_L (++)). rewrite lookup_app_l by (rewrite length_replicate; lia).
  apply lookup_replicate_2. lia.
Qed.

Lemma padded_lookup_image {A} (sorted : list A) (num_blanks : Z) (j : nat) (a : A) :
  sorted !! j = Some a →
  padded_img_paths sorted num_blanks !! (Z.to_nat num_blanks + j)%nat = Some (Some a).
Proof.
  intros Hj. unfold padded_img_paths, img_paths, Py.repeat_list.
  rewrite <- (assoc_L (++)). rewrite lookup_app_r by (rewrite length_replicate; lia).
  rewrite length_replicate.
  replace (Z.to_nat num_blanks + j - Z.to_nat num_blanks)%nat with j by lia.
  rewrite lookup_app_l by (rewrite length_fmap; by eapply lookup_lt_Some).
  by rewrite list_lookup_fmap, Hj.
Qed.

(** C4. With [b >= 0] leading blanks, the slot at position [i] carries the
    number [i + 1 - b]: the leading blanks carry numbers [<= 0] and the
    [j]-th image (from 0) carries [j + 1], so the first image is page 1
    whatever [b] is. *)
Theorem page_numbering {A} (sorted : list A) (num_blanks : Z) :
  0 ≤ num_blanks →
  let slots := page_info (padded_img_paths sorted num_blanks) num_blanks in
  (∀ (i : nat) (n : Z) (src : option A),
     slots !! i = Some (n, src) → n = Z.of_nat i + 1 - num_blanks) ∧
  (∀ i : nat, Z.of_nat i < num_blanks →
     slots !! i = Some (Z.of_nat i + 1 - num_blanks, None) ∧
     Z.of_nat i + 1 - num_blanks ≤ 0) ∧
  (∀ (j : nat) (a : A), sorted !! j = Some a →
     slots !! (Z.to_nat num_blanks + j)%nat = Some (Z.of_nat j + 1, Some a)) ∧
  (∀ a : A, head sorted = Some a →
     slots !! Z.to_nat num_blanks = Some (1, Some a)).
Proof.
  intros Hb slots. unfold slots, page_info.
  assert (Himg : ∀ (j : nat) (a : A), sorted !! j = Some a →
     Py.enumerate (padded_img_paths sorted num_blanks) (1 - num_blanks)
       !! (Z.to_nat num_blanks + j)%nat = Some (Z.of_nat j + 1, Some a)).
  { intros j a Hj. rewrite enumerate_lookup, (padded_lookup_image _ _ _ a Hj).
    simpl. do 2 f_equal. lia. }
  repeat split.
  - intros i n src Hi. rewrite enumerate_lookup in Hi.
    destruct (_ !! i); simplify_eq/=. lia.
  - rewrite enumerate_lookup, padded_lookup_blank by done. simpl. do 2 f_equal. lia.
  - lia.
  - done.
  - intros a Ha. rewrite head_lookup in Ha.
    specialize (Himg 0%nat a Ha). by rewrite Nat.add_0_r in Himg.
Qed.

Lemma page_numbering_witness :
  0 ≤ 3 ∧
  page_info (padded_img_paths six_pages 3) 3 !! Z.to_nat 3 =
    Some (1, Some (mkPath "m/1.jpg" ".jpg")).
Proof.
  split; [lia|].
  exact (proj2 (proj2 (proj2 (page_numbering six_pages 3 ltac:(lia)))) _ eq_refl).
Defined.

(** C10. With a negative blank count [b] no blank is prepended, and yet
    the numbering starts at [1 - b]: the [j]-th image carries
    [j + 1 - b], and the first image carries [1 - b > 1]. *)
Theorem negative_blanks_shift_numbering {A} (sorted : list A) (num_blanks : Z) :
  num_blanks < 0 →
  let slots := page_info (padded_img_paths sorted num_blanks) num_blanks in
  Py.repeat_list (@None A) num_blanks = [] ∧
  img_paths sorted num_blanks = Some <$> sorted ∧
  (∀ (j : nat) (a : A), sorted !! j = Some a →
     slots !! j = Some (Z.of_nat j + 1 - num_blanks, Some a)) ∧
  (∀ a : A, head sorted = Some a →
     head slots = Some (1 - num_blanks, Some a) ∧ 1 < 1 - num_blanks).
Proof.
  intros Hb slots. unfold slots, page_info.
  assert (Hnil : Py.repeat_list (@None A) num_blanks = []).
  { unfold Py.repeat_list. by replace (Z.to_nat num_blanks) with 0%nat by lia. }
  assert (Himg : ∀ (j : nat) (a : A), sorted !! j = Some a →
     Py.enumerate (padded_img_paths sorted num_blanks) (1 - num_blanks) !! j =
     Some (Z.of_nat j + 1 - num_blanks, Some a)).
  { intros j a Hj. pose proof (padded_lookup_image sorted num_blanks j a Hj) as Hp.
    replace (Z.to_nat num_blanks + j)%nat with j in Hp by lia.
    rewrite enumerate_lookup, Hp. simpl. do 2 f_equal. lia. }
  split; [done|]. split; [by unfold img_paths; rewrite Hnil|].
  split; [done|]. intros a Ha. split; [|lia].
  rewrite head_lookup in Ha. rewrite head_lookup, (Himg 0%nat a Ha). do 2 f_equal.
Qed.

Lemma negative_blanks_shift_numbering_witness :
  -2 < 0 ∧
  head (page_info (padded_img_paths six_pages (-2)) (-2)) =
    Some (3, Some (mkPath "m/1.jpg" ".jpg")).
Proof.
  split; [lia|].
  exact (proj1 (proj2 (proj2 (proj2
    (negative_blanks_shift_numbering six_pages (-2) ltac:(lia)))) _ eq_refl)).
Defined.

(** C5. The list handed on by the padding step has a length divisible by
    4; it is the leading blanks, the sorted images and
    [(4 - len % 4) % 4] trailing blanks, where [len] counts the leading
    blanks and the images. *)
Theorem padded_length_multiple_of_4 {A} (sorted : list A) (num_blanks : Z) :
  0 ≤ num_blanks →
  let unpadded := img_paths sorted num_blanks in
  let padded := padded_img_paths sorted num_blanks in
  unpadded = replicate (Z.to_nat num_blanks) None ++ (Some <$> sorted) ∧
  Py.len unpadded = num_blanks + Py.len sorted ∧
  padded = unpadded ++ empty_pages sorted num_blanks ∧
  empty_pages sorted num_blanks =
    replicate (Z.to_nat ((4 - Py.len unpadded `mod` 4) `mod` 4)) None ∧
  Py.len (empty_pages sorted num_blanks) = (4 - Py.len unpadded `mod` 4) `mod` 4 ∧
  Py.len padded `mod` 4 = 0.
Proof.
  intros Hb unpadded padded.
  assert (Hlen : Py.len (empty_pages sorted num_blanks) =
                 (4 - Py.len unpadded `mod` 4) `mod` 4).
  { unfold empty_pages. rewrite len_repeat_list. fold unpadded. lia. }
  repeat split; try done.
  - unfold unpadded. rewrite len_img_paths. lia.
  - unfold padded, padded_img_paths. rewrite len_app. fold unpadded.
    rewrite Hlen. lia.
Qed.

Lemma padded_length_multiple_of_4_witness :
  0 ≤ 1 ∧ Py.len (padded_img_paths six_pages 1) `mod` 4 = 0 ∧
  Py.len (empty_pages six_pages 1) = 1.
Proof.
  split; [lia|].
  pose proof (padded_length_multiple_of_4 six_pages 1 ltac:(lia)) as Hw.
  split; [exact (proj2 (proj2 (proj2 (proj2 (proj2 Hw)))))|].
  exact (proj1 (proj2 (proj2 (proj2 (proj2 Hw))))).
Defined.

(** ** The worked example: six images, no leading blank *)

(** C3, as the code behaves: six images and no leading blank give 8 slots
    with two trailing blanks and the middle at 4; back-left visits
    [0, 2], back-right [7, 5], front-right [1, 3], and front-left visits
    [6, 4] (both indices, down to and including the middle); the first
    back sheet pairs page 1 on the left with the blank page 8 on the
    right. *)
Theorem worked_example (p1 p2 p3 p4 p5 p6 : Path) :
  let padded := padded_img_paths [p1; p2; p3; p4; p5; p6] 0 in
  let p := impose padded 0 in
  padded = [Some p1; Some p2; Some p3; Some p4; Some p5; Some p6; None; None] ∧
  num_pages padded = 8 ∧
  middle_index padded = 4 ∧
  back_left_indices 8 = [0; 2] ∧
  back_right_indices 8 = [7; 5] ∧
  front_left_indices 8 = [6; 4] ∧
  front_right_indices 8 = [1; 3] ∧
  back_left_pages p = [(1, Some p1); (3, Some p3)] ∧
  back_right_pages p = [(8, None); (6, Some p6)] ∧
  front_left_pages p = [(7, None); (5, Some p5)] ∧
  front_right_pages p = [(2, Some p2); (4, Some p4)] ∧
  zip (back_left_pages p) (back_right_pages p) !! 0%nat =
    Some ((1, Some p1), (8, None)).
Proof. repeat split. Qed.

(** C3, against the example as written: the front-left sequence is not the
    single index 6; it has two sheet halves. *)
Lemma worked_example_front_left_counterexample :
  front_left_indices (num_pages (padded_img_paths six_pages 0)) ≠ [6] ∧
  length (front_left_pages (impose (padded_img_paths six_pages 0) 0)) = 2%nat.
Proof. split; [discriminate|reflexivity]. Qed.

(** ** The placement of an image *)

Import MangaPDF.

Section Placement.

Local Open Scope Q_scope.

Lemma truediv_ok (a b : Q) : ~ b == 0 → truediv a b = Ok (a / b).
Proof.
  intros Hb. unfold truediv. destruct (Qeq_bool b 0) eqn:E; [|done].
  apply Qeq_bool_eq in E. contradiction.
Qed.

Lemma truediv_zero (a b : Q) : b == 0 → truediv a b = Raise ZeroDivisionError.
Proof.
  intros Hb. unfold truediv. destruct (Qeq_bool b 0) eqn:E; [done|].
  apply Qeq_bool_neq in E. contradiction.
Qed.

Lemma ratio_below_one (a b : Q) : 0 < a → 0 < b → b <= a → 0 < b / a ∧ b / a <= 1.
Proof.
  intros Ha Hb0 Hb.
  assert (E : (b / a) * a == b) by (field; lra).
  set (t := b / a) in *. clearbody t. split; nra.
Qed.

Lemma ratio_strictly_below_one (a b : Q) : 0 < a → b < a → b / a < 1.
Proof.
  intros Ha Hb.
  assert (E : (b / a) * a == b) by (field; lra).
  set (t := b / a) in *. clearbody t. nra.
Qed.

(** [lra] does not read [_ / 2]; it reads [_ * (1 # 2)]. *)
Ltac halves := unfold Qdiv; change (/ 2) with (1 # 2).

(** C6. An image of positive width and height gets a rectangle in the
    half-sheet region reduced by the margin of 4.2 on its four sides. When
    the image's ratio exceeds the region's ratio the width is the region's
    width, the height is smaller than the region's and the rectangle is
    centred vertically; otherwise the height is the region's height, the
    width is at most the region's and the rectangle is centred
    horizontally. In both cases the rectangle has the image's aspect ratio
    and lies inside the reduced region. (Over exact rationals.) *)
Theorem image_placement (iw ih : Z) (right_side : bool) :
  (0 < iw)%Z → (0 < ih)%Z →
  let d := drawable right_side in
  let image_ratio := inject_Z iw / inject_Z ih in
  let region_ratio := w d / h d in
  ∃ r, place iw ih right_side = Ok r ∧
    (region_ratio < image_ratio →
       w r == w d ∧ h r < h d ∧ x r == x d ∧
       y r - y d == (y d + h d) - (y r + h r)) ∧
    (¬ region_ratio < image_ratio →
       h r == h d ∧ w r <= w d ∧ y r == y d ∧
       x r - x d == (x d + w d) - (x r + w r)) ∧
    0 < w r ∧ 0 < h r ∧ w r / h r == image_ratio ∧
    inside r d.
Proof.
  rename right_side into rs. intros Hw Hh d a b. unfold place.
  assert (HI : 0 < inject_Z iw) by (change 0 with (inject_Z 0); by rewrite <- Zlt_Qlt).
  assert (HH : 0 < inject_Z ih) by (change 0 with (inject_Z 0); by rewrite <- Zlt_Qlt).
  assert (Ha : 0 < a) by (apply Qlt_shift_div_l; lra).
  rewrite truediv_ok by lra. cbn [rbind].
  rewrite truediv_ok by (unfold page_height, image_margin; lra). cbn [rbind].
  fold a.
  set (pw := page_width / 2 - image_margin - image_margin).
  set (ph := page_height - image_margin - image_margin).
  assert (Hpw : pw == 1401 # 10) by reflexivity.
  assert (Hph : ph == 1008 # 5) by reflexivity.
  assert (Hdw : w d == pw) by (destruct rs; reflexivity).
  assert (Hdh : h d == ph) by (destruct rs; reflexivity).
  assert (Hdx : x d == (if rs then page_width / 2 else 0) + image_margin) by (destruct rs; reflexivity).
  assert (Hdy : y d == image_margin) by (destruct rs; reflexivity).
  assert (Hb : b == pw / ph) by (unfold b; by rewrite Hdw, Hdh).
  assert (Hb0 : 0 < pw / ph) by (apply Qlt_shift_div_l; lra).
  set (px := (if rs then page_width / 2 else 0) + image_margin) in *.
  set (py := image_margin) in *.
  clearbody d a pw ph px py.
  destruct (Qlt_le_dec (pw / ph) a) as [Hlt|Hle].
  - rewrite truediv_ok by lra. cbn [rbind]. eexists; split; [reflexivity|]. cbn [x y w h].
    destruct (ratio_below_one a (pw / ph)) as [Ht0 Ht1]; [lra..|].
    pose proof (ratio_strictly_below_one a (pw / ph) Ha Hlt) as Ht.
    assert (Easp : pw / (ph * (pw / ph / a)) == a) by (field; lra).
    set (t := pw / ph / a) in *. clearbody t.
    assert (Hh1 : ph * t < ph) by nra.
    assert (Hh0 : 0 < ph * t) by nra.
    set (h' := ph * t) in *. clearbody h'.
    unfold inside; cbn [x y w h]. rewrite Hdw, Hdh, Hdx, Hdy, Hb.
    split; [intros _|split; [intros Hn; contradiction|]].
    + repeat split; halves; lra.
    + split; [lra|]. split; [lra|]. split; [exact Easp|].
      repeat split; halves; lra.
  - rewrite truediv_ok by lra. cbn [rbind]. eexists; split; [reflexivity|]. cbn [x y w h].
    destruct (ratio_below_one (pw / ph) a) as [Ht0 Ht1]; [lra..|].
    assert (Easp : pw * (a / (pw / ph)) / ph == a) by (field; lra).
    set (t := a / (pw / ph)) in *. clearbody t.
    assert (Hw1 : pw * t <= pw) by nra.
    assert (Hw0 : 0 < pw * t) by nra.
    set (w' := pw * t) in *. clearbody w'.
    unfold inside; cbn [x y w h]. rewrite Hdw, Hdh, Hdx, Hdy, Hb.
    split; [intros Hn; apply Qlt_not_le in Hn; contradiction|split; [intros _|]].
    + repeat split; halves; lra.
    + split; [lra|]. split; [lra|]. split; [exact Easp|].
      repeat split; halves; lra.
Qed.

(** A landscape image fills the width; a narrow one fills the height. *)
Example place_landscape :
  ∃ r, place 800 600 false = Ok r ∧
       x r == 4.2 ∧ y r == 52.4625 ∧ w r == 140.1 ∧ h r == 105.075.
Proof. eexists. split; [reflexivity|]. repeat split. Qed.

Example place_narrow :
  ∃ r, place 1 2 true = Ok r ∧
       x r == 172.35 ∧ y r == 4.2 ∧ w r == 100.8 ∧ h r == 201.6.
Proof. eexists. split; [reflexivity|]. repeat split. Qed.

Lemma image_placement_witness :
  (0 < 600)%Z ∧ (0 < 800)%Z ∧
  ∃ r, place 600 800 true = Ok r ∧ w r / h r == inject_Z 600 / inject_Z 800 ∧
       inside r (drawable true).
Proof.
  split; [lia|]. split; [lia|].
  destruct (image_placement 600 800 true ltac:(lia) ltac:(lia))
    as (r & Hr & _ & _ & _ & _ & Hasp & Hin).
  exists r. exact (conj Hr (conj Hasp Hin)).
Defined.

(** What [place] raises is a division by zero. *)
Lemma place_raises (iw ih : Z) (right_side : bool) (e : exn) :
  place iw ih right_side = Raise e → e = ZeroDivisionError.
Proof.
  unfold place, truediv, rbind.
  repeat match goal with
         | |- context [Qeq_bool ?a ?b] => destruct (Qeq_bool a b)
         | |- context [Qlt_le_dec ?a ?b] => destruct (Qlt_le_dec a b)
         end; congruence.
Qed.

Lemma place_zero_height (iw : Z) (right_side : bool) :
  place iw 0 right_side = Raise ZeroDivisionError.
Proof. unfold place. by rewrite truediv_zero. Qed.

Lemma place_nonzero_height (iw ih : Z) (right_side : bool) :
  ih ≠ 0%Z → ∃ r, place iw ih right_side = Ok r.
Proof.
  intros Hih. unfold place.
  assert (HH : ¬ inject_Z ih == 0).
  { change 0 with (inject_Z 0). rewrite inject_Z_injective. done. }
  rewrite truediv_ok by done. cbn [rbind].
  set (pw := page_width / 2 - image_margin - image_margin).
  set (ph := page_height - image_margin - image_margin).
  assert (Hpw : pw == 1401 # 10) by reflexivity.
  assert (Hph : ph == 1008 # 5) by reflexivity.
  assert (Hb0 : 0 < pw / ph) by (apply Qlt_shift_div_l; lra).
  rewrite truediv_ok by lra. cbn [rbind].
  destruct (Qlt_le_dec _ _) as [Hlt|Hle].
  - rewrite truediv_ok by lra. cbn [rbind]. eauto.
  - rewrite truediv_ok by lra. cbn [rbind]. eauto.
Qed.

(** An image of width zero is placed, with a rectangle of width zero. *)
Lemma place_zero_width (ih : Z) (right_side : bool) :
  ih ≠ 0%Z → ∃ r, place 0 ih right_side = Ok r ∧ w r == 0.
Proof.
  intros Hih. unfold place.
  assert (HH : ¬ inject_Z ih == 0).
  { change 0 with (inject_Z 0). rewrite inject_Z_injective. done. }
  rewrite truediv_ok by done. cbn [rbind].
  set (pw := page_width / 2 - image_margin - image_margin).
  set (ph := page_height - image_margin - image_margin).
  assert (Hpw : pw == 1401 # 10) by reflexivity.
  assert (Hph : ph == 1008 # 5) by reflexivity.
  assert (Hb0 : 0 < pw / ph) by (apply Qlt_shift_div_l; lra).
  assert (Hz : inject_Z 0 / inject_Z ih == 0) by (change (inject_Z 0) with 0; field; done).
  rewrite truediv_ok by lra. cbn [rbind].
  destruct (Qlt_le_dec _ _) as [Hlt|Hle]; [rewrite Hz in Hlt; lra|].
  rewrite truediv_ok by lra. cbn [rbind]. eexists. split; [reflexivity|].
  cbn [w]. rewrite Hz. field. lra.
Qed.

(** C7, as the code behaves, for the sizes a JPEG or PNG header can declare
    (a width and a height from [0] to [2 ^ 32 - 1]): the only failure of
    the placement is Python's division by zero, raised exactly when the
    image height is zero; for any other height a rectangle is produced,
    of width zero when the image width is zero. The region and the margin
    are the constants of the class. *)
Theorem placement_fails_only_on_zero_height (iw ih : Z) (right_side : bool) :
  (0 ≤ iw < 2 ^ 32)%Z → (0 ≤ ih < 2 ^ 32)%Z →
  (place iw ih right_side = Raise ZeroDivisionError ↔ ih = 0%Z) ∧
  ((∃ r, place iw ih right_side = Ok r) ↔ ih ≠ 0%Z) ∧
  (∀ e, place iw ih right_side = Raise e ↔ ih = 0%Z ∧ e = ZeroDivisionError) ∧
  (iw = 0%Z → ih ≠ 0%Z → ∃ r, place iw ih right_side = Ok r ∧ w r == 0).
Proof.
  intros _ _.
  assert (Hzero : ih = 0%Z → place iw ih right_side = Raise ZeroDivisionError).
  { intros ->. apply place_zero_height. }
  pose proof (place_nonzero_height iw ih right_side) as Hok.
  split; [|split; [|split]].
  - split; [|done]. intros Hr. destruct (decide (ih = 0%Z)) as [|Hne]; [done|].
    destruct (Hok Hne) as [r Hr']. congruence.
  - split; [|done]. intros [r Hr] ->. rewrite Hzero in Hr; [done|done].
  - intros e. split.
    + intros Hr. pose proof (place_raises _ _ _ _ Hr) as ->. split; [|done].
      destruct (decide (ih = 0%Z)) as [|Hne]; [done|].
      destruct (Hok Hne) as [r Hr']. congruence.
    + intros [-> ->]. by apply Hzero.
  - intros -> Hne. by apply place_zero_width.
Qed.

Lemma placement_fails_only_on_zero_height_witness :
  (0 ≤ 0 < 2 ^ 32)%Z ∧ (0 ≤ 800 < 2 ^ 32)%Z ∧
  ∃ r, place 0 800 true = Ok r ∧ w r == 0.
Proof.
  assert (Hw : (0 ≤ 0 < 2 ^ 32)%Z) by lia.
  assert (Hh : (0 ≤ 800 < 2 ^ 32)%Z) by lia.
  split; [exact Hw|]. split; [exact Hh|].
  exact (proj2 (proj2 (proj2 (placement_fails_only_on_zero_height 0 800 true Hw Hh)))
           eq_refl ltac:(lia)).
Defined.

(** C7, against the contract as written: an image of width 0, which the
    contract refuses, is placed. *)
Lemma zero_width_image_placed_counterexample :
  (0 <= 0)%Z ∧ ∃ r, place 0 1 false = Ok r ∧ w r == 0.
Proof. split; [lia|]. eexists; split; [reflexivity|reflexivity]. Qed.

End Placement.

(** ** The choice of the header parser *)

Section Dispatch.

Context `{FPDF}.

Lemma parse_state (path : Path) (s : state) :
  parse path s =
  match parse path empty with
  | Ok (inf, _) => Ok (inf, s)
  | Raise e => Raise e
  end.
Proof.
  unfold parse, ret, raise.
  repeat match goal with
         | |- context [if ?b then _ else _] => destruct b
         | |- context [match ?o with Some _ => _ | None => _ end] => destruct o
         end; reflexivity.
Qed.

Lemma write_image_raises (path : Path) (right_side : bool) (s : state) (e : exn) :
  write_image path right_side s = Raise e →
  parse path s = Raise e ∨ e = ZeroDivisionError.
Proof.
  unfold write_image, bind.
  destruct (parse path s) as [[inf s']|e'] eqn:Hp; [|intros [= ->]; by left].
  unfold get_images, set_image, lift.
  destruct (place _ _ _) as [r|e'] eqn:Hr.
  - unfold _out. destruct (pages _); discriminate.
  - intros [= ->]. right. by eapply place_raises.
Qed.

(** [write_image] raises exactly for an image that cannot be drawn. *)
Lemma write_image_raises_iff (path : Path) (right_side : bool) (s : state) :
  (∃ e, write_image path right_side s = Raise e) ↔ embeddable path = false.
Proof.
  unfold embeddable, write_image, bind. rewrite (parse_state path s).
  destruct (parse path empty) as [[inf s']|e]; [|split; [done|eauto]].
  unfold get_images, set_image, lift. cbn [info_w info_h].
  destruct (decide (info_h inf = 0%Z)) as [Hz|Hnz].
  - rewrite Hz, place_zero_height. split; [done|eauto].
  - destruct (place_nonzero_height (info_w inf) (info_h inf) right_side Hnz) as [r ->].
    apply Z.eqb_neq in Hnz. rewrite Hnz. split; [|done].
    intros [e He]. unfold _out in He. by destruct (pages _).
Qed.

(** C8, as the code behaves: [write_image] raises its invalid-extension
    error, and a [ValueError] at all, exactly for a suffix other than
    [.jpg], [.jpeg] and [.png]; a path with suffix [.jpg] or [.jpeg] is
    read by the JPEG parser, one with suffix [.png] by the PNG parser, and
    a call that succeeds had one of the three suffixes. It raises some
    error exactly when the image cannot be drawn, which besides the
    suffix covers a parser that fails and a height of zero. *)
Theorem extension_dispatch (path : Path) (right_side : bool) (s : state) :
  let unsupported :=
    suffix path ≠ ".jpg"%string ∧ suffix path ≠ ".jpeg"%string ∧
    suffix path ≠ ".png"%string in
  (write_image path right_side s = Raise (ValueError "invalid image extension") ↔
     unsupported) ∧
  ((∃ msg, write_image path right_side s = Raise (ValueError msg)) ↔ unsupported) ∧
  (suffix path = ".jpg"%string ∨ suffix path = ".jpeg"%string →
     parse path s = match _parsejpg (path_str path) with
                    | Some inf => Ok (inf, s)
                    | None => Raise (LibraryError (path_str path))
                    end) ∧
  (suffix path = ".png"%string →
     parse path s = match _parsepng (path_str path) with
                    | Some inf => Ok (inf, s)
                    | None => Raise (LibraryError (path_str path))
                    end) ∧
  ((∃ r, write_image path right_side s = Ok r) →
     suffix path = ".jpg"%string ∨ suffix path = ".jpeg"%string ∨
     suffix path = ".png"%string) ∧
  ((∃ e, write_image path right_side s = Raise e) ↔ embeddable path = false).
Proof.
  intros unsupported. unfold unsupported.
  assert (Hbad : suffix path ≠ ".jpg"%string ∧ suffix path ≠ ".jpeg"%string ∧
                 suffix path ≠ ".png"%string →
                 write_image path right_side s = Raise (ValueError "invalid image extension")).
  { intros (Hj & Hje & Hp). unfold write_image, bind, parse.
    apply String.eqb_neq in Hj, Hje, Hp. by rewrite Hj, Hje, Hp. }
  assert (Hjpg : suffix path = ".jpg"%string ∨ suffix path = ".jpeg"%string →
     parse path s = match _parsejpg (path_str path) with
                    | Some inf => Ok (inf, s)
                    | None => Raise (LibraryError (path_str path))
                    end).
  { intros Hs. unfold parse.
    replace ((suffix path =? ".jpg")%string || (suffix path =? ".jpeg")%string)
      with true.
    - by destruct (_parsejpg _).
    - symmetry. apply orb_true_iff. destruct Hs as [Hs|Hs]; [left|right];
        by apply String.eqb_eq. }
  assert (Hpng : suffix path = ".png"%string →
     parse path s = match _parsepng (path_str path) with
                    | Some inf => Ok (inf, s)
                    | None => Raise (LibraryError (path_str path))
                    end).
  { intros Hs. unfold parse. rewrite Hs. simpl. by destruct (_parsepng _). }
  assert (Hgood : ∀ msg, write_image path right_side s = Raise (ValueError msg) →
     suffix path ≠ ".jpg"%string ∧ suffix path ≠ ".jpeg"%string ∧
     suffix path ≠ ".png"%string).
  { intros msg Hr. apply write_image_raises in Hr as [Hr|Hr]; [|discriminate].
    destruct (decide (suffix path = ".jpg"%string)) as [Hj|Hj].
    { rewrite Hjpg in Hr by auto. by destruct (_parsejpg _). }
    destruct (decide (suffix path = ".jpeg"%string)) as [Hje|Hje].
    { rewrite Hjpg in Hr by auto. by destruct (_parsejpg _). }
    destruct (decide (suffix path = ".png"%string)) as [Hp|Hp].
    { rewrite Hpng in Hr by auto. by destruct (_parsepng _). }
    done. }
  split; [split; [apply Hgood|apply Hbad]|].
  split; [split; [intros [msg Hr]; by eapply Hgood|eauto]|].
  split; [done|]. split; [done|].
  split; [|apply write_image_raises_iff].
  intros [r Hr].
  destruct (decide (suffix path = ".jpg"%string)) as [Hj|Hj]; [auto|].
  destruct (decide (suffix path = ".jpeg"%string)) as [Hje|Hje]; [auto|].
  destruct (decide (suffix path = ".png"%string)) as [Hp|Hp]; [auto|].
  rewrite Hbad in Hr by done. discriminate.
Qed.

End Dispatch.

(** C8, against the specification as written: a file with a supported
    suffix still makes [write_image] raise, when FPDF's parser refuses it
    and when its header declares a height of zero. *)
Lemma supported_suffix_raises_counterexample :
  let jpg := mkPath "m/1.jpg" ".jpg" in
  let png := mkPath "m/2.png" ".png" in
  suffix jpg = ".jpg"%string ∧
  @write_image corrupt_fpdf jpg false empty = Raise (LibraryError "m/1.jpg") ∧
  suffix png = ".png"%string ∧
  @write_image corrupt_fpdf png false empty = Raise ZeroDivisionError.
Proof. repeat split; vm_compute; reflexivity. Qed.

(** ** One document: the loop of [__init__] *)

Section Document.

Context `{FPDF}.

Lemma append_last_snoc (o : op) (ps : list (list op)) (pg : list op) :
  append_last o (ps ++ [pg]) = ps ++ [pg ++ [o]].
Proof.
  induction ps as [|p ps IH]; [done|].
  simpl. rewrite IH. by destruct ps.
Qed.

Lemma _out_pages (o : op) (s : state) (ps : list (list op)) (pg : list op) :
  pages s = ps ++ [pg] →
  ∃ s', _out o s = Ok (tt, s') ∧ pages s' = ps ++ [pg ++ [o]] ∧ images s' = images s.
Proof.
  intros Hp. unfold _out. rewrite Hp, append_last_snoc.
  destruct (ps ++ [pg]) eqn:E; [by destruct ps|]. eauto.
Qed.

Lemma embeddable_parse (path : Path) (s : state) :
  embeddable path = true →
  ∃ inf, parse path s = Ok (inf, s) ∧ info_h inf ≠ 0.
Proof.
  unfold embeddable. rewrite (parse_state path s).
  destruct (parse path empty) as [[inf s0]|e]; [|done].
  intros Hh. exists inf. split; [done|]. apply negb_true_iff in Hh. lia.
Qed.

Lemma write_image_pages (path : Path) (right_side : bool) (s : state)
    (ps : list (list op)) (pg : list op) :
  embeddable path = true → pages s = ps ++ [pg] →
  ∃ s' o inf, write_image path right_side s = Ok (tt, s') ∧
          pages s' = ps ++ [pg ++ [o]] ∧ printed_page_num o = None ∧
          image_ref o = Some (Z.of_nat (size (images s)) + 1) ∧
          images s' = <[path_str path := inf]> (images s) ∧
          info_i inf = Z.of_nat (size (images s)) + 1.
Proof.
  intros He Hp. destruct (embeddable_parse path s He) as (inf & Hparse & Hh).
  unfold write_image, bind. rewrite Hparse. cbn.
  destruct (place_nonzero_height (info_w inf) (info_h inf) right_side Hh) as [r ->].
  cbn [lift]. set (s1 := {| images := _ |}).
  destruct (_out_pages (DrawImage (w r * self_k) (h r * self_k) (x r * self_k)
     ((self_h - (y r + h r)) * self_k) (Z.of_nat (size (images s)) + 1)) s1 ps pg Hp)
    as (s' & Hout & Hpages & Himgs).
  rewrite Hout. do 3 eexists. split; [done|]. split; [done|]. split; [done|].
  split; [done|]. split; [exact Himgs|done].
Qed.

Lemma write_page_num_pages (page_num : Z) (right_side : bool) (s : state)
    (ps : list (list op)) (pg : list op) :
  pages s = ps ++ [pg] →
  ∃ s' o, write_page_num page_num right_side s = Ok (tt, s') ∧
          pages s' = ps ++ [pg ++ [o]] ∧ printed_page_num o = Some page_num ∧
          image_ref o = None ∧ images s' = images s.
Proof.
  intros Hp. unfold write_page_num.
  match goal with |- context [_out ?o s] =>
    destruct (_out_pages o s ps pg Hp) as (s' & Hout & Hpages & Himgs) end.
  rewrite Hout. do 2 eexists. split; [done|]. split; [done|]. split; [done|].
  split; [done|exact Himgs].
Qed.

(** One half of a sheet: nothing for a blank, the image and its number
    otherwise. *)
Lemma half_pages (slot : Z * option Path) (right_side : bool) (s : state)
    (ps : list (list op)) (pg : list op) :
  drawable_slot slot → pages s = ps ++ [pg] →
  ∃ s' pg',
    match slot.2 with
    | Some p => bind (write_image p right_side) (λ _, write_page_num slot.1 right_side)
    | None => ret tt
    end s = Ok (tt, s') ∧
    pages s' = ps ++ [pg'] ∧
    omap printed_page_num pg' =
      omap printed_page_num pg ++ option_list (placed_number slot).
Proof.
  intros Hslot Hp. unfold drawable_slot, placed_number in *.
  destruct slot as [n [p|]]; simpl in *.
  - destruct (write_image_pages p right_side s ps pg Hslot Hp)
      as (s1 & o1 & inf & Hw & Hp1 & Ho1 & _).
    destruct (write_page_num_pages n right_side s1 ps (pg ++ [o1]) Hp1)
      as (s2 & o2 & Hn & Hp2 & Ho2 & _).
    exists s2, ((pg ++ [o1]) ++ [o2]). unfold bind. rewrite Hw, Hn.
    split; [done|]. split; [done|].
    rewrite !omap_app. simpl. rewrite Ho1, Ho2. simpl. by rewrite app_nil_r.
  - exists s, pg. rewrite app_nil_r. done.
Qed.

Lemma add_sheet_pages (left right : Z * option Path) (s : state) :
  drawable_slot left → drawable_slot right →
  ∃ s' pg, add_sheet left right s = Ok (tt, s') ∧
           pages s' = pages s ++ [pg] ∧
           omap printed_page_num pg = sheet_numbers (left, right).
Proof.
  intros Hl Hr.
  set (s0 := {| images := images s; pages := pages s ++ [[]]; buffer := buffer s |}).
  destruct (half_pages left false s0 (pages s) [] Hl eq_refl) as (s1 & pg1 & H1 & Hp1 & Hn1).
  destruct (half_pages right true s1 (pages s) pg1 Hr Hp1) as (s2 & pg2 & H2 & Hp2 & Hn2).
  exists s2, pg2. split; [|split; [done|]].
  - unfold add_sheet. destruct left as [ln lp], right as [rn rp].
    unfold bind at 1. unfold add_page. fold s0.
    unfold bind at 1. simpl in H1. rewrite H1. exact H2.
  - rewrite Hn2, Hn1. done.
Qed.

Lemma for_each_pages (sheets : list ((Z * option Path) * (Z * option Path))) (s : state) :
  Forall (λ lr, drawable_slot lr.1 ∧ drawable_slot lr.2) sheets →
  ∃ s', for_each (λ lr, add_sheet lr.1 lr.2) sheets s = Ok (tt, s') ∧
        length (pages s') = (length (pages s) + length sheets)%nat ∧
        page_nums s' = page_nums s ++ concat (sheet_numbers <$> sheets).
Proof.
  intros Hall. revert s. induction Hall as [|[l r] sheets [Hl Hr] _ IH]; intros s.
  - exists s. simpl. rewrite app_nil_r. split; [done|]. split; [lia|done].
  - destruct (add_sheet_pages l r s Hl Hr) as (s1 & pg & Hadd & Hp & Hn).
    destruct (IH s1) as (s2 & Hrun & Hlen & Hnums).
    exists s2. cbn [for_each]. unfold bind. simpl. rewrite Hadd, Hrun.
    split; [done|]. split.
    + rewrite Hlen, Hp, length_app. simpl. lia.
    + rewrite Hnums. unfold page_nums, content. rewrite Hp, concat_app, omap_app.
      simpl. rewrite app_nil_r, Hn. by rewrite <- (assoc_L (++)).
Qed.

Lemma zip_drawable (left_pages right_pages : list (Z * option Path)) :
  Forall drawable_slot left_pages → Forall drawable_slot right_pages →
  Forall (λ lr, drawable_slot lr.1 ∧ drawable_slot lr.2) (zip left_pages right_pages).
Proof.
  intros Hl. revert right_pages. induction Hl as [|l ls Hl0 _ IH]; intros rs Hr;
    [constructor|].
  destruct Hr as [|r rs' Hr0 Hr']; [constructor|]. simpl. constructor; [done|].
  by apply IH.
Qed.

Lemma __init___pages (left_pages right_pages : list (Z * option Path)) :
  Forall drawable_slot left_pages → Forall drawable_slot right_pages →
  ∃ s, __init__ left_pages right_pages = Ok s ∧
       length (pages s) = length (zip left_pages right_pages) ∧
       page_nums s = concat (sheet_numbers <$> zip left_pages right_pages).
Proof.
  intros Hl Hr.
  destruct (for_each_pages (zip left_pages right_pages) empty) as (s & Hrun & Hlen & Hn).
  { by apply zip_drawable. }
  exists s. unfold __init__. rewrite Hrun. done.
Qed.

End Document.

(** ** The two documents together *)

(** The four index sequences split the positions [0 .. 4q - 1]. *)
Lemma index_partition (q : nat) :
  let n := 4 * Z.of_nat q in
  back_left_indices n ++ back_right_indices n ++
  front_left_indices n ++ front_right_indices n ≡ₚ Z.of_nat <$> seq 0 (4 * q).
Proof.
  intros n. unfold n.
  rewrite back_left_indices_4q, back_right_indices_4q,
    front_left_indices_4q, front_right_indices_4q.
  apply NoDup_Permutation.
  - repeat (apply NoDup_app; split; [|split]);
      try (apply NoDup_fmap_2; [intros a b ?; lia|apply NoDup_seq]).
    all: intros x Hx; rewrite ?elem_of_app, !list_elem_of_fmap;
      apply list_elem_of_fmap in Hx as (k & -> & Hk%elem_of_seq);
      intros Hy; repeat destruct Hy as [Hy|Hy];
      destruct Hy as (k' & Hkk & Hk'%elem_of_seq); lia.
  - apply NoDup_fmap_2; [intros a b ?; lia|apply NoDup_seq].
  - intros x. rewrite !elem_of_app, !list_elem_of_fmap. split.
    + intros Hx. repeat destruct Hx as [Hx|Hx];
        destruct Hx as (k & -> & Hk%elem_of_seq);
        [ exists (2 * k)%nat | exists (4 * q - 1 - 2 * k)%nat
        | exists (4 * q - 2 - 2 * k)%nat | exists (2 * k + 1)%nat ];
        (split; [lia|apply elem_of_seq; lia]).
    + intros (j & -> & Hj%elem_of_seq).
      destruct (decide (Z.of_nat j `mod` 2 = 0)) as [Heven|Hodd];
        destruct (decide (j < 2 * q)%nat) as [Hlow|Hhigh].
      * left. exists (Z.to_nat (Z.of_nat j / 2)).
        split; [lia|apply elem_of_seq; lia].
      * right; right; left. exists (Z.to_nat ((4 * Z.of_nat q - 2 - Z.of_nat j) / 2)).
        split; [lia|apply elem_of_seq; lia].
      * right; right; right. exists (Z.to_nat ((Z.of_nat j - 1) / 2)).
        split; [lia|apply elem_of_seq; lia].
      * right; left. exists (Z.to_nat ((4 * Z.of_nat q - 1 - Z.of_nat j) / 2)).
        split; [lia|apply elem_of_seq; lia].
Qed.

(** Reading a list at every position gives the list back. *)
Lemma omap_item_all {A} (l : list A) :
  omap (Py.item l) (Z.of_nat <$> seq 0 (length l)) = l.
Proof.
  induction l as [|a l IH]; [done|].
  cbn [length seq fmap list_fmap]. rewrite <- fmap_S_seq, <- list_fmap_compose.
  change (omap (Py.item (a :: l)) (Z.of_nat 0 :: (Z.of_nat ∘ S <$> seq 0 (length l))))
    with (a :: omap (Py.item (a :: l)) (Z.of_nat ∘ S <$> seq 0 (length l))).
  f_equal. rewrite <- IH at 3.
  apply list_omap_ext, Forall2_fmap, Forall_Forall2_diag, Forall_forall.
  intros k _. unfold Py.item, compose.
  destruct (Z.ltb_spec (Z.of_nat (S k)) 0); [lia|].
  destruct (Z.ltb_spec (Z.of_nat k) 0); [lia|].
  by rewrite !Nat2Z.id.
Qed.

(** The four sequences of a plan hold every slot exactly once. *)
Lemma plan_partition {A} (padded : list (option A)) (num_blanks : Z) (q : nat) :
  Py.len padded = 4 * Z.of_nat q →
  let p := impose padded num_blanks in
  back_left_pages p ++ back_right_pages p ++ front_left_pages p ++ front_right_pages p
  ≡ₚ page_info padded num_blanks.
Proof.
  intros Hn p. subst p.
  destruct (impose_slices padded num_blanks) as (-> & -> & -> & ->).
  rewrite <- !omap_app. unfold num_pages. rewrite Hn, index_partition.
  replace (4 * q)%nat with (length (page_info padded num_blanks)).
  - by rewrite omap_item_all.
  - unfold page_info. rewrite enumerate_length. unfold Py.len in Hn. lia.
Qed.

Lemma placed_numbers_sublist {A} (slots : list (Z * option A)) :
  omap placed_number slots `sublist_of` slots.*1.
Proof.
  induction slots as [|[n [a|]] slots IH]; [done|..]; csimpl.
  - by apply sublist_skip.
  - by apply sublist_cons.
Qed.

Lemma placed_numbers_NoDup {A} (padded : list (option A)) (num_blanks : Z) :
  NoDup (omap placed_number (page_info padded num_blanks)).
Proof.
  eapply sublist_NoDup; [|apply placed_numbers_sublist].
  unfold page_info. rewrite enumerate_fst.
  apply NoDup_fmap_2; [intros a b ?; lia|apply NoDup_seq].
Qed.

Lemma sheet_numbers_zip (left_pages right_pages : list (Z * option Path)) :
  length left_pages = length right_pages →
  concat (sheet_numbers <$> zip left_pages right_pages)
  ≡ₚ omap placed_number left_pages ++ omap placed_number right_pages.
Proof.
  revert right_pages. induction left_pages as [|l ls IH]; intros [|r rs] Hlen;
    try done; simplify_eq/=.
  rewrite (IH rs) by done. unfold sheet_numbers. simpl.
  destruct (placed_number l) eqn:El; destruct (placed_number r) eqn:Er;
    csimpl; rewrite ?El, ?Er; simpl; solve_Permutation.
Qed.

Section Documents.

Context `{FPDF}.

Lemma drawable_slots (padded : list (option Path)) (num_blanks : Z) :
  (∀ path, Some path ∈ padded → embeddable path = true) →
  Forall drawable_slot (page_info padded num_blanks).
Proof.
  intros Hall. apply Forall_forall. intros [n [path|]] Hin; [|done].
  apply Hall. rewrite <- (enumerate_snd padded (1 - num_blanks)).
  apply list_elem_of_fmap. by exists (n, Some path).
Qed.

(** C2. For a padded list of [4 * q] slots whose images can all be drawn,
    [build_pdf] constructs a back and a front document of [q] sheets each
    ([2 * q], half the slots, in total); the four index sequences
    together are a rearrangement of the positions [0 .. 4q - 1]; and the
    page numbers printed in the two documents are, as a multiset, the
    numbers of the slots that hold an image, none of them repeated. *)
Theorem documents_place_every_page
    (padded : list (option Path)) (num_blanks : Z) (q : nat) :
  Py.len padded = 4 * Z.of_nat q →
  (∀ path, Some path ∈ padded → embeddable path = true) →
  let n := num_pages padded in
  let slots := page_info padded num_blanks in
  ∃ back front,
    documents padded num_blanks = Ok (back, front) ∧
    length (pages back) = q ∧ length (pages front) = q ∧
    Z.of_nat (length (pages back) + length (pages front)) = n / 2 ∧
    back_left_indices n ++ back_right_indices n ++
      front_left_indices n ++ front_right_indices n
      ≡ₚ Z.of_nat <$> seq 0 (Z.to_nat n) ∧
    page_nums back ++ page_nums front ≡ₚ omap placed_number slots ∧
    NoDup (omap placed_number slots) ∧
    NoDup (page_nums back ++ page_nums front).
Proof.
  intros Hn Hall n slots.
  pose proof (plan_partition padded num_blanks q Hn) as Hpart. cbv zeta in Hpart.
  pose proof (drawable_slots padded num_blanks Hall) as Hslots.
  rewrite <- Hpart in Hslots.
  apply Forall_app in Hslots as [Hbl Hslots].
  apply Forall_app in Hslots as [Hbr Hslots].
  apply Forall_app in Hslots as [Hfl Hfr].
  pose proof (impose_progressions padded num_blanks q Hn) as Hseq. cbv zeta in Hseq.
  destruct Hseq as ((Lbl & Lbr & Lfl & Lfr) & _).
  destruct (__init___pages _ _ Hbl Hbr) as (back & Hback & Hlb & Hnb).
  destruct (__init___pages _ _ Hfl Hfr) as (front & Hfront & Hlf & Hnf).
  rewrite length_zip_with in Hlb, Hlf. rewrite Lbl, Lbr in Hlb. rewrite Lfl, Lfr in Hlf.
  assert (Hperm : page_nums back ++ page_nums front ≡ₚ omap placed_number slots).
  { rewrite Hnb, Hnf. rewrite !sheet_numbers_zip by congruence.
    unfold slots. rewrite <- Hpart, !omap_app. by rewrite <- !(assoc_L (++)). }
  exists back, front. unfold documents. rewrite Hback, Hfront.
  split; [done|]. split; [lia|]. split; [lia|]. split.
  { unfold n, num_pages. rewrite Hn. lia. }
  split.
  { unfold n, num_pages. rewrite Hn, index_partition.
    by replace (Z.to_nat (4 * Z.of_nat q)) with (4 * q)%nat by lia. }
  split; [done|].
  split; [apply placed_numbers_NoDup|].
  rewrite Hperm. apply placed_numbers_NoDup.
Qed.

End Documents.

Lemma documents_place_every_page_witness :
  Py.len (padded_img_paths six_pages 0) = 4 * Z.of_nat 2 ∧
  (∀ path, Some path ∈ padded_img_paths six_pages 0 →
     @embeddable sample_fpdf path = true) ∧
  ∃ back front,
    @documents sample_fpdf (padded_img_paths six_pages 0) 0 = Ok (back, front) ∧
    length (pages back) = 2%nat ∧ length (pages front) = 2%nat ∧
    page_nums back ++ page_nums front ≡ₚ [1; 2; 3; 4; 5; 6].
Proof.
  assert (Hall : ∀ path, Some path ∈ padded_img_paths six_pages 0 →
                         @embeddable sample_fpdf path = true).
  { intros path Hin. cbv in Hin.
    repeat (apply elem_of_cons in Hin as [Hin|Hin]; [by simplify_eq|]).
    by apply elem_of_nil in Hin. }
  split; [reflexivity|]. split; [exact Hall|].
  destruct (@documents_place_every_page sample_fpdf
              (padded_img_paths six_pages 0) 0 2 eq_refl Hall)
    as (back & front & Hdoc & Hlb & Hlf & _ & _ & Hperm & _).
  exists back, front. exact (conj Hdoc (conj Hlb (conj Hlf Hperm))).
Defined.

(** ** The image registry *)

Section Registry.

Context `{FPDF}.

#[local] Set Warnings "-clear-no-such-hyp".

Lemma image_refs_snoc (s s' : state) (ps : list (list op)) (pg : list op) (o : op) :
  pages s = ps ++ [pg] → pages s' = ps ++ [pg ++ [o]] →
  image_refs s' = image_refs s ++ option_list (image_ref o).
Proof.
  intros Hp Hp'. unfold image_refs, content. rewrite Hp, Hp'.
  rewrite !concat_app, !omap_app. simpl. rewrite !app_nil_r, omap_app.
  rewrite <- (assoc_L (++)). do 2 f_equal.
Qed.

Lemma registered_insert (s s' : state) (name : string) (inf : info) :
  images s !! name = None → images s' = <[name := inf]> (images s) →
  registered s' ≡ₚ registered s ++ [info_i inf] ∧
  size (images s') = S (size (images s)).
Proof.
  intros Hnone Himgs. unfold registered. rewrite Himgs. split.
  - rewrite map_to_list_insert by done. simpl. by rewrite Permutation_cons_append.
  - by apply map_size_insert_None.
Qed.

Lemma registry_consistent_empty : registry_consistent empty.
Proof.
  unfold registry_consistent, image_refs, registered, content. simpl.
  by rewrite map_to_list_empty, map_size_empty.
Qed.

Lemma write_image_registry (path : Path) (right_side : bool) (s : state)
    (ps : list (list op)) (pg : list op) :
  embeddable path = true → pages s = ps ++ [pg] →
  images s !! path_str path = None → registry_consistent s →
  ∃ s' pg', write_image path right_side s = Ok (tt, s') ∧
            pages s' = ps ++ [pg'] ∧ registry_consistent s' ∧
            dom (images s') = {[path_str path]} ∪ dom (images s).
Proof.
  intros He Hp Hnone [Hrefs Hnum].
  destruct (write_image_pages path right_side s ps pg He Hp)
    as (s' & o & inf & Hw & Hp' & _ & Ho & Himgs & Hi).
  destruct (registered_insert s s' _ inf Hnone Himgs) as [Hreg Hsize].
  exists s', (pg ++ [o]). split; [done|]. split; [done|]. split.
  - split.
    + rewrite (image_refs_snoc s s' ps pg o Hp Hp'), Ho, Hreg, Hi. simpl.
      by rewrite Hrefs.
    + rewrite Hreg, Hsize, Hi, Hnum. rewrite seq_S, fmap_app. done.
  - rewrite Himgs. apply dom_insert_L.
Qed.

Lemma write_page_num_registry (page_num : Z) (right_side : bool) (s : state)
    (ps : list (list op)) (pg : list op) :
  pages s = ps ++ [pg] → registry_consistent s →
  ∃ s' pg', write_page_num page_num right_side s = Ok (tt, s') ∧
            pages s' = ps ++ [pg'] ∧ registry_consistent s' ∧
            images s' = images s.
Proof.
  intros Hp [Hrefs Hnum].
  destruct (write_page_num_pages page_num right_side s ps pg Hp)
    as (s' & o & Hw & Hp' & _ & Ho & Himgs).
  exists s', (pg ++ [o]). split; [done|]. split; [done|]. split; [|done].
  unfold registry_consistent.
  rewrite (image_refs_snoc s s' ps pg o Hp Hp'), Ho. simpl. rewrite app_nil_r.
  unfold registered in *. rewrite Himgs. done.
Qed.

Lemma half_registry (slot : Z * option Path) (right_side : bool) (s : state)
    (ps : list (list op)) (pg : list op) :
  drawable_slot slot → pages s = ps ++ [pg] →
  (∀ name, name ∈ slot_names slot → images s !! name = None) →
  registry_consistent s →
  ∃ s' pg',
    match slot.2 with
    | Some p => bind (write_image p right_side) (λ _, write_page_num slot.1 right_side)
    | None => ret tt
    end s = Ok (tt, s') ∧
    pages s' = ps ++ [pg'] ∧ registry_consistent s' ∧
    dom (images s') = list_to_set (slot_names slot) ∪ dom (images s).
Proof.
  intros Hslot Hp Hfresh Hinv. unfold drawable_slot, slot_names in *.
  destruct slot as [n [p|]]; simpl in *.
  - destruct (write_image_registry p right_side s ps pg Hslot Hp)
      as (s1 & pg1 & Hw & Hp1 & Hinv1 & Hdom1); [apply Hfresh; set_solver|done|].
    destruct (write_page_num_registry n right_side s1 ps pg1 Hp1 Hinv1)
      as (s2 & pg2 & Hn & Hp2 & Hinv2 & Himgs2).
    exists s2, pg2. unfold bind. rewrite Hw, Hn.
    split; [done|]. split; [done|]. split; [done|].
    rewrite Himgs2, Hdom1. set_solver.
  - exists s, pg. split; [done|]. split; [done|]. split; [done|]. set_solver.
Qed.

Lemma add_sheet_registry (left right : Z * option Path) (s : state) :
  drawable_slot left → drawable_slot right →
  NoDup (sheet_names (left, right)) →
  (∀ name, name ∈ sheet_names (left, right) → images s !! name = None) →
  registry_consistent s →
  ∃ s', add_sheet left right s = Ok (tt, s') ∧ registry_consistent s' ∧
        dom (images s') = list_to_set (sheet_names (left, right)) ∪ dom (images s).
Proof.
  intros Hl Hr Hnd Hfresh Hinv. unfold sheet_names in *. simpl in *.
  apply NoDup_app in Hnd as (_ & Hdisj & _).
  set (s0 := {| images := images s; pages := pages s ++ [[]]; buffer := buffer s |}).
  assert (Hinv0 : registry_consistent s0).
  { unfold registry_consistent, image_refs, registered, content in *. simpl.
    rewrite concat_app. simpl. by rewrite app_nil_r. }
  destruct (half_registry left false s0 (pages s) [] Hl eq_refl)
    as (s1 & pg1 & H1 & Hp1 & Hinv1 & Hdom1); [|done|].
  { intros name Hin. apply Hfresh. set_solver. }
  destruct (half_registry right true s1 (pages s) pg1 Hr Hp1)
    as (s2 & pg2 & H2 & Hp2 & Hinv2 & Hdom2); [|done|].
  { intros name Hin. apply not_elem_of_dom. rewrite Hdom1. simpl.
    intros [Hin'%elem_of_list_to_set|Hin'%elem_of_dom]%elem_of_union.
    - by apply (Hdisj name).
    - rewrite Hfresh in Hin' by set_solver. by destruct Hin'. }
  exists s2. split; [|split; [done|]].
  - unfold add_sheet. destruct left as [ln lp], right as [rn rp].
    unfold bind at 1. unfold add_page. fold s0.
    unfold bind at 1. simpl in H1. rewrite H1. exact H2.
  - rewrite Hdom2, Hdom1. simpl. set_solver.
Qed.

Lemma for_each_registry (sheets : list ((Z * option Path) * (Z * option Path)))
    (s : state) :
  Forall (λ lr, drawable_slot lr.1 ∧ drawable_slot lr.2) sheets →
  NoDup (concat (sheet_names <$> sheets)) →
  (∀ name, name ∈ concat (sheet_names <$> sheets) → images s !! name = None) →
  registry_consistent s →
  ∃ s', for_each (λ lr, add_sheet lr.1 lr.2) sheets s = Ok (tt, s') ∧
        registry_consistent s'.
Proof.
  intros Hall. revert s.
  induction Hall as [|[l r] sheets [Hl Hr] _ IH]; intros s Hnd Hfresh Hinv.
  - by exists s.
  - simpl in Hnd, Hfresh. apply NoDup_app in Hnd as (Hnd1 & Hdisj & Hnd2).
    destruct (add_sheet_registry l r s Hl Hr Hnd1) as (s1 & Hadd & Hinv1 & Hdom1);
      [intros name Hin; apply Hfresh; set_solver|done|].
    destruct (IH s1 Hnd2) as (s2 & Hrun & Hinv2); [|done|].
    { intros name Hin. apply not_elem_of_dom. rewrite Hdom1.
      intros [Hin'%elem_of_list_to_set|Hin'%elem_of_dom]%elem_of_union.
      - by apply (Hdisj name).
      - rewrite Hfresh in Hin' by set_solver. by destruct Hin'. }
    exists s2. cbn [for_each]. unfold bind. simpl. by rewrite Hadd, Hrun.
Qed.

(** X6. With pairwise distinct image paths, as [build_pdf] has them, every
    reference in the finished document is defined by the registry, and no
    number is used twice. *)
Lemma distinct_paths_references_resolve (left_pages right_pages : list (Z * option Path)) :
  Forall drawable_slot left_pages → Forall drawable_slot right_pages →
  NoDup (concat (sheet_names <$> zip left_pages right_pages)) →
  ∃ s, __init__ left_pages right_pages = Ok s ∧
       image_refs s ≡ₚ registered s ∧ NoDup (image_refs s).
Proof.
  intros Hl Hr Hnd.
  destruct (for_each_registry (zip left_pages right_pages) empty)
    as (s & Hrun & Hrefs & Hnum);
    [by apply zip_drawable|done|done|apply registry_consistent_empty|].
  exists s. unfold __init__. rewrite Hrun. split; [done|]. split; [done|].
  rewrite Hrefs, Hnum. apply NoDup_fmap_2; [intros a b ?; lia|apply NoDup_seq].
Qed.

End Registry.


(** C9, on the code: a document that places the same image file on two
    sheets keeps one registry entry, numbered 2, while the content of the
    first sheet refers to image 1, which the registry no longer defines. *)
Theorem repeated_image_dangling_reference :
  let a := mkPath "m/1.jpg" ".jpg" in
  match @__init__ sample_fpdf [(1, Some a); (3, Some a)] [(2, None); (4, None)] with
  | Ok doc =>
      size (images doc) = 1%nat ∧ image_refs doc = [1; 2] ∧
      registered doc = [2] ∧ 1 ∉ registered doc
  | Raise _ => False
  end.
Proof.
  vm_compute. repeat split.
  intros Hin. apply elem_of_cons in Hin as [Hin|Hin]; [discriminate|].
  by apply elem_of_nil in Hin.
Qed.

(** * Further properties of the code *)

(** ** The sheets of the booklet *)

Section Booklet.

Context {A : Type}.

(** The four halves with index [k], with their numbers and their sources. *)
Lemma impose_layout (padded : list (option A)) (num_blanks : Z) (q k : nat) :
  Py.len padded = 4 * Z.of_nat q → (k < q)%nat →
  let p := impose padded num_blanks in
  let n := 4 * Z.of_nat q in
  ∃ s1 s2 s3 s4,
    padded !! (2 * k)%nat = Some s1 ∧
    padded !! (4 * q - 1 - 2 * k)%nat = Some s2 ∧
    padded !! (4 * q - 2 - 2 * k)%nat = Some s3 ∧
    padded !! (2 * k + 1)%nat = Some s4 ∧
    back_left_pages p !! k = Some (2 * Z.of_nat k + 1 - num_blanks, s1) ∧
    back_right_pages p !! k = Some (n - 2 * Z.of_nat k - num_blanks, s2) ∧
    front_left_pages p !! k = Some (n - 2 * Z.of_nat k - 1 - num_blanks, s3) ∧
    front_right_pages p !! k = Some (2 * Z.of_nat k + 2 - num_blanks, s4).
Proof.
  intros Hn Hk p n.
  pose proof (impose_progressions padded num_blanks q Hn) as [_ Hlook].
  cbv zeta in Hlook. fold p in Hlook.
  assert (Hat : ∀ i : nat, (i < 4 * q)%nat →
    ∃ s, padded !! i = Some s ∧
         page_info padded num_blanks !! i = Some (Z.of_nat i + 1 - num_blanks, s)).
  { intros i Hi. destruct (lookup_lt_is_Some_2 padded i) as [s Hs].
    { unfold Py.len in Hn. lia. }
    exists s. split; [done|]. unfold page_info. rewrite enumerate_lookup, Hs. simpl.
    do 2 f_equal. lia. }
  assert (Hidx : ∀ f : nat → Z, (f <$> seq 0 q) !! k = Some (f k)).
  { intros f. by rewrite list_lookup_fmap, lookup_seq_lt. }
  destruct (Hat (2 * k)%nat ltac:(lia)) as (s1 & Hs1 & Hp1).
  destruct (Hat (4 * q - 1 - 2 * k)%nat ltac:(lia)) as (s2 & Hs2 & Hp2).
  destruct (Hat (4 * q - 2 - 2 * k)%nat ltac:(lia)) as (s3 & Hs3 & Hp3).
  destruct (Hat (2 * k + 1)%nat ltac:(lia)) as (s4 & Hs4 & Hp4).
  exists s1, s2, s3, s4. repeat (split; [done|]).
  destruct (Hlook k (2 * Z.of_nat k)) as (Hbl & _).
  destruct (Hlook k (4 * Z.of_nat q - 1 - 2 * Z.of_nat k)) as (_ & Hbr & _).
  destruct (Hlook k (4 * Z.of_nat q - 2 - 2 * Z.of_nat k)) as (_ & _ & Hfl & _).
  destruct (Hlook k (2 * Z.of_nat k + 1)) as (_ & _ & _ & Hfr).
  rewrite Hbl, Hbr, Hfl, Hfr by apply Hidx.
  replace (Z.to_nat (2 * Z.of_nat k)) with (2 * k)%nat by lia.
  replace (Z.to_nat (4 * Z.of_nat q - 1 - 2 * Z.of_nat k))
    with (4 * q - 1 - 2 * k)%nat by lia.
  replace (Z.to_nat (4 * Z.of_nat q - 2 - 2 * Z.of_nat k))
    with (4 * q - 2 - 2 * k)%nat by lia.
  replace (Z.to_nat (2 * Z.of_nat k + 1)) with (2 * k + 1)%nat by lia.
  rewrite Hp1, Hp2, Hp3, Hp4. unfold n.
  repeat split; do 2 f_equal; lia.
Qed.

(** X1. Sheet [k] of the back document pairs the slot at position [2k]
    (left, number [2k + 1 - b]) with the slot at position [n - 1 - 2k]
    (right, number [n - 2k - b]); sheet [k] of the front document pairs
    position [n - 2 - 2k] (left, number [n - 2k - 1 - b]) with position
    [2k + 1] (right, number [2k + 2 - b]). *)
Theorem booklet_sheets (padded : list (option A)) (num_blanks : Z) (q k : nat) :
  Py.len padded = 4 * Z.of_nat q → (k < q)%nat →
  let p := impose padded num_blanks in
  let n := num_pages padded in
  ∃ s1 s2 s3 s4,
    padded !! (2 * k)%nat = Some s1 ∧
    padded !! (4 * q - 1 - 2 * k)%nat = Some s2 ∧
    padded !! (4 * q - 2 - 2 * k)%nat = Some s3 ∧
    padded !! (2 * k + 1)%nat = Some s4 ∧
    zip (back_left_pages p) (back_right_pages p) !! k =
      Some ((2 * Z.of_nat k + 1 - num_blanks, s1), (n - 2 * Z.of_nat k - num_blanks, s2)) ∧
    zip (front_left_pages p) (front_right_pages p) !! k =
      Some ((n - 2 * Z.of_nat k - 1 - num_blanks, s3), (2 * Z.of_nat k + 2 - num_blanks, s4)).
Proof.
  intros Hn Hk p n.
  destruct (impose_layout padded num_blanks q k Hn Hk)
    as (s1 & s2 & s3 & s4 & H1 & H2 & H3 & H4 & Hbl & Hbr & Hfl & Hfr).
  exists s1, s2, s3, s4. repeat (split; [done|]).
  unfold n, num_pages. rewrite Hn. fold p in Hbl, Hbr, Hfl, Hfr.
  rewrite !lookup_zip_with, Hbl, Hbr, Hfl, Hfr. done.
Qed.

(** X2. On every sheet of either document the two page numbers add up to
    [n + 1 - 2b]; and sheet [k] of the front document carries the pages
    that follow those of sheet [k] of the back document where the paper is
    turned: its right page follows the back's left page, and the back's
    right page follows its left page. *)
Theorem booklet_invariants (padded : list (option A)) (num_blanks : Z) (q : nat) :
  Py.len padded = 4 * Z.of_nat q →
  let p := impose padded num_blanks in
  let n := num_pages padded in
  (∀ l r, (l, r) ∈ zip (back_left_pages p) (back_right_pages p) ++
                   zip (front_left_pages p) (front_right_pages p) →
          l.1 + r.1 = n + 1 - 2 * num_blanks) ∧
  (∀ k : nat, (k < q)%nat →
     ∃ bl br fl fr,
       back_left_pages p !! k = Some bl ∧ back_right_pages p !! k = Some br ∧
       front_left_pages p !! k = Some fl ∧ front_right_pages p !! k = Some fr ∧
       fr.1 = bl.1 + 1 ∧ br.1 = fl.1 + 1).
Proof.
  intros Hn p n.
  pose proof (impose_progressions padded num_blanks q Hn) as [(Lbl & Lbr & Lfl & Lfr) _].
  cbv zeta in Lbl, Lbr, Lfl, Lfr. fold p in Lbl, Lbr, Lfl, Lfr.
  unfold n, num_pages. rewrite Hn. split.
  - intros l r [Hin|Hin]%elem_of_app;
      apply list_elem_of_lookup in Hin as [k Hk];
      assert (Hlt : (k < q)%nat)
        by (apply lookup_lt_Some in Hk; rewrite length_zip_with in Hk; lia);
      destruct (impose_layout padded num_blanks q k Hn Hlt)
        as (s1 & s2 & s3 & s4 & _ & _ & _ & _ & Hbl & Hbr & Hfl & Hfr);
      fold p in Hbl, Hbr, Hfl, Hfr;
      rewrite lookup_zip_with, ?Hbl, ?Hbr, ?Hfl, ?Hfr in Hk;
      simplify_eq/=; lia.
  - intros k Hk.
    destruct (impose_layout padded num_blanks q k Hn Hk)
      as (s1 & s2 & s3 & s4 & _ & _ & _ & _ & Hbl & Hbr & Hfl & Hfr).
    do 4 eexists. repeat (split; [eassumption|]). simpl. lia.
Qed.

End Booklet.

Lemma booklet_sheets_witness :
  Py.len (padded_img_paths six_pages 0) = 4 * Z.of_nat 2 ∧ (1 < 2)%nat ∧
  zip (back_left_pages (impose (padded_img_paths six_pages 0) 0))
      (back_right_pages (impose (padded_img_paths six_pages 0) 0)) !! 1%nat =
    Some ((3, Some (mkPath "m/3.jpg" ".jpg")), (6, Some (mkPath "m/6.jpeg" ".jpeg"))).
Proof.
  split; [reflexivity|]. split; [lia|].
  destruct (booklet_sheets (padded_img_paths six_pages 0) 0 2 1 eq_refl ltac:(lia))
    as (s1 & s2 & s3 & s4 & H1 & H2 & _ & _ & Hback & _).
  cbv in H1, H2. simplify_eq. exact Hback.
Defined.

Lemma booklet_invariants_witness :
  Py.len (padded_img_paths six_pages 0) = 4 * Z.of_nat 2 ∧
  ∀ l r, (l, r) ∈ zip (back_left_pages (impose (padded_img_paths six_pages 0) 0))
                      (back_right_pages (impose (padded_img_paths six_pages 0) 0)) ++
                  zip (front_left_pages (impose (padded_img_paths six_pages 0) 0))
                      (front_right_pages (impose (padded_img_paths six_pages 0) 0)) →
         l.1 + r.1 = 9.
Proof.
  split; [reflexivity|].
  exact (proj1 (booklet_invariants (padded_img_paths six_pages 0) 0 2 eq_refl)).
Defined.

(** ** When a document is built *)

Section Outcome.

Context `{FPDF} `{Disk}.

Lemma write_image_fails (path : Path) (right_side : bool) (s : state) :
  embeddable path = false → ∃ e, write_image path right_side s = Raise e.
Proof.
  unfold embeddable, write_image, bind. rewrite (parse_state path s).
  destruct (parse path empty) as [[inf s0]|e]; [|eauto].
  intros Hh. apply negb_false_iff, Z.eqb_eq in Hh. cbn. rewrite Hh.
  rewrite place_zero_height. cbn. eauto.
Qed.

Lemma drawable_slot_dec (slot : Z * option Path) :
  drawable_slot slot ∨ ∃ path, slot.2 = Some path ∧ embeddable path = false.
Proof.
  unfold drawable_slot. destruct slot as [n [path|]]; simpl; [|by left].
  destruct (embeddable path) eqn:He; [by left|right; eauto].
Qed.

(** A sheet is added only if both its halves can be drawn. *)
Lemma add_sheet_ok_inv (left right : Z * option Path) (s : state) (r : unit * state) :
  add_sheet left right s = Ok r → drawable_slot left ∧ drawable_slot right.
Proof.
  intros Hok.
  set (s0 := {| images := images s; pages := pages s ++ [[]]; buffer := buffer s |}).
  assert (Hadd : add_sheet left right s =
    bind match left.2 with
         | Some p => bind (write_image p false) (λ _, write_page_num left.1 false)
         | None => ret tt
         end
         (λ _, match right.2 with
               | Some p => bind (write_image p true) (λ _, write_page_num right.1 true)
               | None => ret tt
               end) s0).
  { unfold add_sheet. destruct left as [ln [lp|]], right as [rn [rp|]]; reflexivity. }
  rewrite Hadd in Hok. clear Hadd.
  destruct (drawable_slot_dec left) as [Hl|(p & Hp & He)].
  - split; [done|].
    destruct (half_pages left false s0 (pages s) [] Hl eq_refl) as (s1 & pg1 & H1 & Hp1 & _).
    unfold bind at 1 in Hok. rewrite H1 in Hok.
    destruct (drawable_slot_dec right) as [Hr|(p & Hp & He)]; [done|].
    rewrite Hp in Hok. unfold bind in Hok.
    destruct (write_image_fails p true s1 He) as [e He']. by rewrite He' in Hok.
  - rewrite Hp in Hok. unfold bind in Hok.
    destruct (write_image_fails p false s0 He) as [e He']. by rewrite He' in Hok.
Qed.

Lemma for_each_ok_inv (sheets : list ((Z * option Path) * (Z * option Path)))
    (s : state) (r : unit * state) :
  for_each (λ lr, add_sheet lr.1 lr.2) sheets s = Ok r →
  Forall (λ lr, drawable_slot lr.1 ∧ drawable_slot lr.2) sheets.
Proof.
  revert s. induction sheets as [|[l r0] sheets IH]; intros s Hok; [constructor|].
  cbn [for_each] in Hok. unfold bind in Hok. simpl in Hok.
  destruct (add_sheet l r0 s) as [[[] s1]|e] eqn:Hadd; [|done].
  constructor; [by eapply add_sheet_ok_inv|by eapply IH].
Qed.

(** X3. [MangaPDF(left_pages, right_pages)] is built exactly when every
    image on the sheets it zips can be drawn, and it then has as many
    pages as the shorter of the two lists: what the longer list holds
    beyond that is never read. *)
Theorem init_succeeds_iff (left_pages right_pages : list (Z * option Path)) :
  ((∃ s, __init__ left_pages right_pages = Ok s) ↔
     Forall (λ lr, drawable_slot lr.1 ∧ drawable_slot lr.2) (zip left_pages right_pages)) ∧
  (∀ s, __init__ left_pages right_pages = Ok s →
     length (pages s) = (length left_pages `min` length right_pages)%nat).
Proof.
  split; [split|].
  - intros [s Hs]. unfold __init__ in Hs.
    destruct (for_each _ _ _) as [r|e] eqn:Hrun; [|done]. by eapply for_each_ok_inv.
  - intros Hall.
    destruct (for_each_pages _ empty Hall) as (s & Hrun & _).
    exists s. unfold __init__. by rewrite Hrun.
  - intros s Hs. unfold __init__ in Hs.
    destruct (for_each _ _ _) as [[[] s']|e] eqn:Hrun; [|done]. simplify_eq.
    destruct (for_each_pages _ empty (for_each_ok_inv _ _ _ Hrun)) as (s' & Hrun' & Hlen & _).
    rewrite Hrun in Hrun'. simplify_eq. rewrite Hlen. simpl.
    by rewrite length_zip_with.
Qed.

Lemma Forall_zip_both {B} (P : B → Prop) (l k : list B) :
  length l = length k →
  Forall (λ lr, P lr.1 ∧ P lr.2) (zip l k) → Forall P l ∧ Forall P k.
Proof.
  revert k. induction l as [|a l IH]; intros [|b k] Hlen Hall; simplify_eq/=; [done|].
  apply Forall_cons in Hall as [[Ha Hb] Hall]. destruct (IH k) as [Hl Hk]; [done..|].
  split; by constructor.
Qed.

Lemma len_padded_4q {B} (sorted : list B) (num_blanks : Z) :
  ∃ q : nat, Py.len (padded_img_paths sorted num_blanks) = 4 * Z.of_nat q.
Proof.
  exists (Z.to_nat (Py.len (padded_img_paths sorted num_blanks) / 4)).
  unfold padded_img_paths, empty_pages. rewrite len_app, len_repeat_list.
  pose proof (len_nonneg (img_paths sorted num_blanks)). lia.
Qed.

Lemma elem_of_padded {B} (sorted : list B) (num_blanks : Z) (a : B) :
  Some a ∈ padded_img_paths sorted num_blanks ↔ a ∈ sorted.
Proof.
  unfold padded_img_paths, img_paths, empty_pages, Py.repeat_list.
  rewrite !elem_of_app, !elem_of_replicate, list_elem_of_fmap. split.
  - intros [[[? _]|(b & ? & Hb)]|[? _]]; by simplify_eq.
  - intros Ha. left. right. eauto.
Qed.

(** The documents of a padded list are built exactly when all its images
    can be drawn. *)
Lemma documents_ok_iff (padded : list (option Path)) (num_blanks : Z) (q : nat) :
  Py.len padded = 4 * Z.of_nat q →
  (∃ back front, documents padded num_blanks = Ok (back, front)) ↔
  ∀ path, Some path ∈ padded → embeddable path = true.
Proof.
  intros Hn.
  pose proof (plan_partition padded num_blanks q Hn) as Hpart. cbv zeta in Hpart.
  pose proof (impose_progressions padded num_blanks q Hn) as [(Lbl & Lbr & Lfl & Lfr) _].
  cbv zeta in Lbl, Lbr, Lfl, Lfr.
  split.
  - intros (back & front & Hdoc) path Hin. unfold documents in Hdoc.
    destruct (__init__ (back_left_pages _) _) as [b|] eqn:Hb; [|done].
    destruct (__init__ (front_left_pages _) _) as [f|] eqn:Hf; [|done].
    unfold __init__ in Hb, Hf.
    destruct (for_each _ (zip (back_left_pages _) _) _) as [rb|] eqn:Hrb; [|done].
    destruct (for_each _ (zip (front_left_pages _) _) _) as [rf|] eqn:Hrf; [|done].
    apply for_each_ok_inv, Forall_zip_both in Hrb as [Hbl Hbr]; [|congruence].
    apply for_each_ok_inv, Forall_zip_both in Hrf as [Hfl Hfr]; [|congruence].
    assert (Hall : Forall drawable_slot (page_info padded num_blanks)).
    { rewrite <- Hpart. by repeat (apply Forall_app; split). }
    rewrite <- (enumerate_snd padded (1 - num_blanks)) in Hin.
    apply list_elem_of_fmap in Hin as ([n src] & Hsrc & Hin). simpl in Hsrc. subst src.
    rewrite Forall_forall in Hall. exact (Hall _ Hin).
  - intros Hall.
    pose proof (drawable_slots padded num_blanks Hall) as Hslots.
    rewrite <- Hpart in Hslots.
    apply Forall_app in Hslots as [Hbl Hslots].
    apply Forall_app in Hslots as [Hbr Hslots].
    apply Forall_app in Hslots as [Hfl Hfr].
    destruct (__init___pages _ _ Hbl Hbr) as (back & Hback & _).
    destruct (__init___pages _ _ Hfl Hfr) as (front & Hfront & _).
    exists back, front. unfold documents. by rewrite Hback, Hfront.
Qed.

(** The two output files have different names. *)
Lemma pdf_path_distinct (imgs_path : Dir) :
  pdf_path imgs_path "-back.pdf" ≠ pdf_path imgs_path "-front.pdf".
Proof.
  unfold pdf_path. intros Heq.
  apply (inj (String.app (dir_parent imgs_path))) in Heq.
  apply (inj (String.app (dir_stem imgs_path))) in Heq. discriminate.
Qed.

(** One document is written when its object is built, the directory has a
    name and the file can be opened. *)
Lemma write_document_ok (imgs_path : Dir) (left_pages right_pages : list (Z * option Path))
    (ending : string) (files files' : gmap string state) :
  write_document imgs_path left_pages right_pages ending files = Ok files' ↔
  ∃ doc, __init__ left_pages right_pages = Ok doc ∧
         dir_name imgs_path ≠ ""%string ∧
         can_write (pdf_path imgs_path ending) = true ∧
         files' = <[pdf_path imgs_path ending := close doc]> files.
Proof.
  unfold write_document, with_name, output. fold (pdf_path imgs_path ending).
  destruct (__init__ left_pages right_pages) as [doc|e];
    [|split; [done|by intros (? & ? & _)]].
  destruct (String.eqb_spec (dir_name imgs_path) "") as [Hempty|Hname].
  { split; [done|]. by intros (? & _ & ? & _). }
  destruct (can_write (pdf_path imgs_path ending)) eqn:Hw.
  - split.
    + intros [= <-]. by exists doc.
    + intros (? & [= <-] & _ & _ & ->). done.
  - split; [done|]. by intros (? & _ & _ & ? & _).
Qed.

(** [build_pdf] in terms of the two objects it constructs. *)
Lemma build_pdf_ok (imgs_path : Dir) (sorted : list Path) (num_blanks : Z)
    (files files' : gmap string state) :
  build_pdf imgs_path sorted num_blanks files = Ok files' ↔
  ∃ back front,
    documents (padded_img_paths sorted num_blanks) num_blanks = Ok (back, front) ∧
    dir_name imgs_path ≠ ""%string ∧
    can_write (pdf_path imgs_path "-back.pdf") = true ∧
    can_write (pdf_path imgs_path "-front.pdf") = true ∧
    files' = <[pdf_path imgs_path "-front.pdf" := close front]>
               (<[pdf_path imgs_path "-back.pdf" := close back]> files).
Proof.
  unfold build_pdf, documents. cbv zeta.
  set (p := impose (padded_img_paths sorted num_blanks) num_blanks). split.
  - destruct (write_document _ (back_left_pages p) _ _ _) as [files1|] eqn:Hb; [|done].
    intros Hf.
    apply write_document_ok in Hb as (back & -> & Hname & Hwb & ->).
    apply write_document_ok in Hf as (front & -> & _ & Hwf & ->).
    by exists back, front.
  - intros (back & front & Hdoc & Hname & Hwb & Hwf & ->).
    destruct (__init__ (back_left_pages p) _) as [back'|] eqn:Hb; [|done].
    destruct (__init__ (front_left_pages p) _) as [front'|] eqn:Hf; [|done].
    simplify_eq.
    rewrite (proj2 (write_document_ok _ _ _ "-back.pdf" files _)
               (ex_intro _ back (conj Hb (conj Hname (conj Hwb eq_refl))))).
    apply write_document_ok. by exists front.
Qed.

(** Closing a document changes neither what is drawn nor the registry. *)
Lemma close_content (s : state) :
  content (close s) = content s ∧ images (close s) = images s ∧
  length (pages (close s)) = (length (pages s) `max` 1)%nat.
Proof.
  unfold close, content. destruct (pages s) as [|pg ps] eqn:Hp; simpl.
  - done.
  - rewrite Hp. simpl. repeat split. lia.
Qed.

Lemma close_registry_consistent (s : state) :
  registry_consistent s → registry_consistent (close s) ∧
  (NoDup (image_refs s) → NoDup (image_refs (close s))).
Proof.
  destruct (close_content s) as (Hc & Hi & _).
  unfold registry_consistent, image_refs, registered. by rewrite Hc, Hi.
Qed.

(** X4. [build_pdf] writes its two files exactly when every image file
    can be drawn, the directory path has a name (which [Path('.')] and
    the root have not) and both output files can be opened for writing,
    whatever the blank count: one image with an unsupported suffix, an
    unreadable header or a height of zero makes the whole build fail. *)
Theorem build_pdf_succeeds_iff (imgs_path : Dir) (sorted : list Path) (num_blanks : Z)
    (files : gmap string state) :
  (∃ files', build_pdf imgs_path sorted num_blanks files = Ok files') ↔
  Forall (λ path, embeddable path = true) sorted ∧
  dir_name imgs_path ≠ ""%string ∧
  can_write (pdf_path imgs_path "-back.pdf") = true ∧
  can_write (pdf_path imgs_path "-front.pdf") = true.
Proof.
  destruct (len_padded_4q sorted num_blanks) as [q Hq].
  pose proof (documents_ok_iff _ num_blanks q Hq) as Hdoc.
  rewrite Forall_forall. split.
  - intros [files' (back & front & Hd & Hname & Hwb & Hwf & _)%build_pdf_ok].
    split; [|done]. intros path Hin. apply (proj1 Hdoc); [eauto|].
    by apply elem_of_padded.
  - intros (Hall & Hname & Hwb & Hwf).
    destruct (proj2 Hdoc) as (back & front & Hd).
    { intros path Hin. apply Hall. by apply elem_of_padded in Hin. }
    eexists. apply build_pdf_ok. by exists back, front.
Qed.

(** Sheets of blanks add empty pages and nothing else. *)
Lemma for_each_blank (sheets : list ((Z * option Path) * (Z * option Path))) (s : state) :
  Forall (λ lr, lr.1.2 = None ∧ lr.2.2 = None) sheets →
  for_each (λ lr, add_sheet lr.1 lr.2) sheets s =
  Ok (tt, {| images := images s; pages := pages s ++ replicate (length sheets) [];
             buffer := buffer s |}).
Proof.
  intros Hall. revert s.
  induction Hall as [|[[ln lp] [rn rp]] sheets [Hl Hr] _ IH]; intros s.
  - simpl. rewrite app_nil_r. by destruct s.
  - simpl in Hl, Hr. subst lp rp. cbn [for_each]. unfold bind at 1. simpl.
    unfold add_sheet, bind, add_page, ret. rewrite IH. simpl.
    by rewrite <- (assoc_L (++)).
Qed.

(** With no image the two objects are blank documents. *)
Lemma documents_no_images (num_blanks : Z) :
  let q := Z.to_nat ((Z.max 0 num_blanks + 3) / 4) in
  documents (padded_img_paths [] num_blanks) num_blanks
  = Ok (blank_document q, blank_document q).
Proof.
  intros q.
  set (padded := padded_img_paths (@nil Path) num_blanks).
  assert (Hq : Py.len padded = 4 * Z.of_nat q).
  { unfold padded, padded_img_paths, empty_pages.
    rewrite len_app, len_repeat_list, len_img_paths. unfold Py.len. simpl. lia. }
  assert (Hnone : Forall (λ slot : Z * option Path, slot.2 = None)
                    (page_info padded num_blanks)).
  { apply Forall_forall. intros [n src] Hin. simpl.
    assert (Hsrc : src ∈ padded).
    { rewrite <- (enumerate_snd padded (1 - num_blanks)).
      apply list_elem_of_fmap. by exists (n, src). }
    unfold padded, padded_img_paths, img_paths, empty_pages, Py.repeat_list in Hsrc.
    simpl in Hsrc. rewrite app_nil_r in Hsrc.
    by apply elem_of_app in Hsrc as [[? _]%elem_of_replicate|[? _]%elem_of_replicate]. }
  pose proof (plan_partition padded num_blanks q Hq) as Hpart. cbv zeta in Hpart.
  pose proof (impose_progressions padded num_blanks q Hq) as [(Lbl & Lbr & Lfl & Lfr) _].
  cbv zeta in Lbl, Lbr, Lfl, Lfr.
  rewrite <- Hpart in Hnone.
  apply Forall_app in Hnone as [Hbl Hnone].
  apply Forall_app in Hnone as [Hbr Hnone].
  apply Forall_app in Hnone as [Hfl Hfr].
  assert (Hzip : ∀ l k : list (Z * option Path),
    Forall (λ slot, slot.2 = None) l → Forall (λ slot, slot.2 = None) k →
    Forall (λ lr, lr.1.2 = None ∧ lr.2.2 = None) (zip l k)).
  { intros l k Hl. revert k. induction Hl as [|a l Ha _ IH]; intros k Hk; [constructor|].
    destruct Hk as [|b k Hb Hk]; [constructor|]. simpl. constructor; [done|]. by apply IH. }
  unfold documents, __init__. fold padded.
  rewrite !for_each_blank by (by apply Hzip). cbv beta iota.
  rewrite !length_zip_with, Lbl, Lbr, Lfl, Lfr, Nat.min_id. done.
Qed.

Lemma close_blank_document (q : nat) :
  close (blank_document q) = blank_document (q `max` 1).
Proof. destruct q as [|q]; [done|]. unfold close. simpl. by rewrite Nat.max_0_r. Qed.

(** X5. With no image file at all, a directory path that has a name and
    two output files that can be opened, [build_pdf] does not fail: for a
    blank count [b] it writes two documents of [ceil(max(b, 0) / 4)]
    pages, and of one page when that is zero, with nothing drawn on them
    and an empty image registry. *)
Theorem build_pdf_no_images (imgs_path : Dir) (num_blanks : Z) (files : gmap string state) :
  dir_name imgs_path ≠ ""%string →
  can_write (pdf_path imgs_path "-back.pdf") = true →
  can_write (pdf_path imgs_path "-front.pdf") = true →
  let q := Z.to_nat ((Z.max 0 num_blanks + 3) / 4) in
  build_pdf imgs_path [] num_blanks files =
  Ok (<[pdf_path imgs_path "-front.pdf" := blank_document (q `max` 1)]>
        (<[pdf_path imgs_path "-back.pdf" := blank_document (q `max` 1)]> files)).
Proof.
  intros Hname Hwb Hwf q. apply build_pdf_ok.
  exists (blank_document q), (blank_document q).
  rewrite close_blank_document. by rewrite (documents_no_images num_blanks).
Qed.

End Outcome.

(** For the current directory, whose path has no name, the build stops at
    [with_name] after the back object is built, whatever the images. *)
Example build_pdf_current_dir :
  @build_pdf sample_fpdf sample_disk current_dir six_pages 0 ∅
  = Raise (ValueError "PosixPath('.') has an empty name").
Proof. vm_compute. reflexivity. Qed.

Lemma build_pdf_no_images_witness :
  dir_name sample_dir ≠ ""%string ∧
  @can_write sample_disk (pdf_path sample_dir "-back.pdf") = true ∧
  @can_write sample_disk (pdf_path sample_dir "-front.pdf") = true ∧
  @build_pdf sample_fpdf sample_disk sample_dir [] 5 ∅ =
  Ok {[ "m-front.pdf" := blank_document 2; "m-back.pdf" := blank_document 2 ]}.
Proof.
  assert (Hname : dir_name sample_dir ≠ ""%string) by done.
  split; [exact Hname|]. split; [reflexivity|]. split; [reflexivity|].
  exact (@build_pdf_no_images sample_fpdf sample_disk sample_dir 5 ∅ Hname eq_refl eq_refl).
Defined.

Lemma distinct_paths_references_resolve_witness :
  let pages_l := [(1, Some (mkPath "m/1.jpg" ".jpg")); (3, Some (mkPath "m/3.jpg" ".jpg"))] in
  let pages_r := [(2, Some (mkPath "m/2.jpg" ".jpg")); (4, None)] in
  Forall (@drawable_slot sample_fpdf) pages_l ∧
  Forall (@drawable_slot sample_fpdf) pages_r ∧
  NoDup (concat (sheet_names <$> zip pages_l pages_r)) ∧
  ∃ s, @__init__ sample_fpdf pages_l pages_r = Ok s ∧
       image_refs s ≡ₚ registered s ∧ NoDup (image_refs s).
Proof.
  intros pages_l pages_r.
  assert (Hl : Forall (@drawable_slot sample_fpdf) pages_l)
    by (repeat constructor).
  assert (Hr : Forall (@drawable_slot sample_fpdf) pages_r)
    by (repeat constructor).
  assert (Hnd : NoDup (concat (sheet_names <$> zip pages_l pages_r)))
    by (apply (bool_decide_unpack _); vm_compute; exact I).
  split; [exact Hl|]. split; [exact Hr|]. split; [exact Hnd|].
  exact (@distinct_paths_references_resolve sample_fpdf pages_l pages_r Hl Hr Hnd).
Defined.

(** ** The files [iter_img_paths] finds *)

Lemma ends_with_true (ending s : string) :
  ends_with ending s = true ↔
  ∃ k, reverse (list_ascii_of_string s) = reverse (list_ascii_of_string ending) ++ k.
Proof. unfold ends_with. by rewrite bool_decide_eq_true. Qed.

(** No path matches two of the three patterns. *)
Lemma patterns_exclusive (s : string) :
  (ends_with ".jpg" s = true → ends_with ".jpeg" s = false ∧ ends_with ".png" s = false) ∧
  (ends_with ".jpeg" s = true → ends_with ".png" s = false).
Proof.
  split.
  - intros [k Hk]%ends_with_true. split; apply not_true_is_false;
      intros [k' Hk']%ends_with_true; rewrite Hk in Hk'; discriminate.
  - intros [k Hk]%ends_with_true. apply not_true_is_false;
      intros [k' Hk']%ends_with_true; rewrite Hk in Hk'; discriminate.
Qed.

Lemma rglob_three (listing : list (Path * bool)) :
  img_extensions ≫= rglob listing ≡ₚ
  filter (λ entry, is_img_name (path_str entry.1) = true) listing.
Proof.
  change (img_extensions ≫= rglob listing)
    with (rglob listing "jpg" ++ rglob listing "jpeg" ++ rglob listing "png" ++ []).
  rewrite app_nil_r. unfold rglob, is_img_name.
  change ("." +:+ "jpg") with ".jpg". change ("." +:+ "jpeg") with ".jpeg".
  change ("." +:+ "png") with ".png".
  induction listing as [|[p f] listing IH]; [done|].
  rewrite !filter_cons. cbn [fst].
  destruct (patterns_exclusive (path_str p)) as [Hjpg Hjpeg].
  destruct (ends_with ".jpg" (path_str p)) eqn:E1.
  { destruct (Hjpg eq_refl) as [-> ->]. simpl.
    repeat case_decide; try done. by rewrite IH. }
  destruct (ends_with ".jpeg" (path_str p)) eqn:E2.
  { rewrite (Hjpeg eq_refl). simpl. repeat case_decide; try done.
    rewrite <- IH. solve_Permutation. }
  destruct (ends_with ".png" (path_str p)) eqn:E3; simpl;
    repeat case_decide; try done.
  rewrite <- IH. solve_Permutation.
Qed.

Lemma iter_img_paths_filter (listing : list (Path * bool)) :
  iter_img_paths listing ≡ₚ
    (filter (λ entry : Path * bool,
               entry.2 = true ∧ is_img_name (path_str entry.1) = true) listing).*1.
Proof. unfold iter_img_paths. rewrite rglob_three. by rewrite list_filter_filter. Qed.

Lemma iter_img_paths_NoDup (listing : list (Path * bool)) :
  NoDup (path_str <$> listing.*1) → NoDup (path_str <$> iter_img_paths listing).
Proof.
  intros Hnd. rewrite iter_img_paths_filter. eapply sublist_NoDup; [exact Hnd|].
  apply fmap_sublist, fmap_sublist, sublist_filter.
Qed.

(** X7. [iter_img_paths] yields the regular files of the tree whose path
    ends in [.jpg], [.jpeg] or [.png], each as often as the tree lists it:
    no file is yielded by two patterns, so a tree without repeated paths
    gives a list without repeated paths. Directories and other names are
    left out. *)
Theorem iter_img_paths_image_files (listing : list (Path * bool)) :
  iter_img_paths listing ≡ₚ
    (filter (λ entry : Path * bool,
               entry.2 = true ∧ is_img_name (path_str entry.1) = true) listing).*1 ∧
  (∀ path, path ∈ iter_img_paths listing ↔
           (path, true) ∈ listing ∧ is_img_name (path_str path) = true) ∧
  (NoDup (path_str <$> listing.*1) → NoDup (path_str <$> iter_img_paths listing)).
Proof.
  split; [apply iter_img_paths_filter|]. split; [|apply iter_img_paths_NoDup].
  intros path. rewrite iter_img_paths_filter, list_elem_of_fmap. split.
  - intros ([p f] & -> & [[Hf Himg] Hin]%list_elem_of_filter). simpl in *. by subst f.
  - intros [Hin Himg]. exists (path, true). split; [done|].
    apply list_elem_of_filter. done.
Qed.

(** ** From the directory to the two documents *)

Lemma sheet_names_zip (left_pages right_pages : list (Z * option Path)) :
  length left_pages = length right_pages →
  concat (sheet_names <$> zip left_pages right_pages)
  ≡ₚ (left_pages ≫= slot_names) ++ (right_pages ≫= slot_names).
Proof.
  revert right_pages. induction left_pages as [|l ls IH]; intros [|r rs] Hlen;
    try done; simplify_eq/=.
  rewrite (IH rs) by done. unfold sheet_names. simpl. solve_Permutation.
Qed.

Lemma enumerate_names (padded : list (option Path)) (start : Z) :
  Py.enumerate padded start ≫= slot_names = path_str <$> omap id padded.
Proof.
  revert start. induction padded as [|[path|] padded IH]; intros start; [done|..];
    simpl; by rewrite IH.
Qed.

Lemma padded_images {B} (sorted : list B) (num_blanks : Z) :
  omap id (padded_img_paths sorted num_blanks) = sorted.
Proof.
  assert (Hblank : ∀ n, omap id (replicate n (@None B)) = []).
  { intros n. induction n as [|n IH]; [done|]. simpl. exact IH. }
  unfold padded_img_paths, img_paths, empty_pages, Py.repeat_list.
  rewrite !omap_app, !Hblank, app_nil_r. simpl.
  induction sorted as [|a sorted IH]; [done|]. csimpl. by rewrite IH.
Qed.

(** What is in the files after both insertions. *)
Lemma written_files (imgs_path : Dir) (back front : state) (files : gmap string state) :
  let files' := <[pdf_path imgs_path "-front.pdf" := front]>
                  (<[pdf_path imgs_path "-back.pdf" := back]> files) in
  files' !! pdf_path imgs_path "-back.pdf" = Some back ∧
  files' !! pdf_path imgs_path "-front.pdf" = Some front ∧
  ∀ name, name ≠ pdf_path imgs_path "-back.pdf" →
          name ≠ pdf_path imgs_path "-front.pdf" → files' !! name = files !! name.
Proof.
  pose proof (pdf_path_distinct imgs_path) as Hne. cbv zeta. split; [|split].
  - by rewrite lookup_insert_ne, lookup_insert_eq.
  - by rewrite lookup_insert_eq.
  - intros name Hb Hf. by rewrite !lookup_insert_ne.
Qed.

Section Directory.

Context `{FPDF} `{Disk}.
Variable natsorted : list Path → list Path.
Hypothesis natsorted_permutation : ∀ paths, natsorted paths ≡ₚ paths.

#[local] Set Warnings "-clear-no-such-hyp".

(** The two objects built from a tree without repeated paths. *)
Lemma documents_references_resolve (listing : list (Path * bool)) (num_blanks : Z) :
  NoDup (path_str <$> listing.*1) →
  (∀ path, path ∈ iter_img_paths listing → embeddable path = true) →
  ∃ back front,
    documents (padded_img_paths (natsorted (iter_img_paths listing)) num_blanks) num_blanks
      = Ok (back, front) ∧
    registry_consistent back ∧ registry_consistent front ∧
    NoDup (image_refs back) ∧ NoDup (image_refs front).
Proof.
  intros Hnd Hall.
  set (sorted := natsorted (iter_img_paths listing)).
  assert (Hnames : NoDup (path_str <$> sorted)).
  { unfold sorted. rewrite natsorted_permutation. by apply iter_img_paths_NoDup. }
  assert (Hdraw : ∀ path, Some path ∈ padded_img_paths sorted num_blanks →
                          embeddable path = true).
  { intros path Hin%elem_of_padded. apply Hall.
    unfold sorted in Hin. by rewrite natsorted_permutation in Hin. }
  destruct (len_padded_4q sorted num_blanks) as [q Hq].
  set (padded := padded_img_paths sorted num_blanks) in *.
  pose proof (plan_partition padded num_blanks q Hq) as Hpart. cbv zeta in Hpart.
  pose proof (impose_progressions padded num_blanks q Hq) as [(Lbl & Lbr & Lfl & Lfr) _].
  cbv zeta in Lbl, Lbr, Lfl, Lfr.
  pose proof (drawable_slots padded num_blanks Hdraw) as Hslots.
  rewrite <- Hpart in Hslots.
  apply Forall_app in Hslots as [Hbl Hslots].
  apply Forall_app in Hslots as [Hbr Hslots].
  apply Forall_app in Hslots as [Hfl Hfr].
  assert (Hnd4 : NoDup ((back_left_pages (impose padded num_blanks) ≫= slot_names) ++
                        (back_right_pages (impose padded num_blanks) ≫= slot_names) ++
                        (front_left_pages (impose padded num_blanks) ≫= slot_names) ++
                        (front_right_pages (impose padded num_blanks) ≫= slot_names))).
  { rewrite <- !bind_app, Hpart. unfold page_info.
    rewrite enumerate_names. unfold padded. by rewrite padded_images. }
  rewrite (assoc_L (++)) in Hnd4. apply NoDup_app in Hnd4 as (Hndb & _ & Hndf).
  assert (Hdoc : ∀ l r : list (Z * option Path),
    Forall drawable_slot l → Forall drawable_slot r → length l = length r →
    NoDup ((l ≫= slot_names) ++ (r ≫= slot_names)) →
    ∃ s, __init__ l r = Ok s ∧ registry_consistent s ∧ NoDup (image_refs s)).
  { intros l r Hl Hr Hlen Hn.
    destruct (for_each_registry (zip l r) empty) as (s & Hrun & Hcons);
      [by apply zip_drawable|by rewrite sheet_names_zip|done
      |apply registry_consistent_empty|].
    exists s. unfold __init__. rewrite Hrun. split; [done|]. split; [done|].
    destruct Hcons as [Hrefs Hnum]. rewrite Hrefs, Hnum.
    apply NoDup_fmap_2; [intros a b ?; lia|apply NoDup_seq]. }
  destruct (Hdoc _ _ Hbl Hbr ltac:(congruence) Hndb) as (back & Hback & Hcb & Hrb).
  destruct (Hdoc _ _ Hfl Hfr ltac:(congruence) Hndf) as (front & Hfront & Hcf & Hrf).
  exists back, front. unfold documents. rewrite Hback, Hfront. done.
Qed.

(** X8. For a directory path that has a name, two output files that can
    be opened and a tree without repeated paths whose image files can all
    be drawn, [build_pdf] writes both files and leaves the others alone,
    and in each written document every image reference is a number the
    registry defines, no number serving two images: the registry defect of
    a repeated path cannot arise from the directory. *)
Theorem build_pdf_dir_references_resolve
    (imgs_path : Dir) (listing : list (Path * bool)) (num_blanks : Z)
    (files : gmap string state) :
  dir_name imgs_path ≠ ""%string →
  can_write (pdf_path imgs_path "-back.pdf") = true →
  can_write (pdf_path imgs_path "-front.pdf") = true →
  NoDup (path_str <$> listing.*1) →
  (∀ path, path ∈ iter_img_paths listing → embeddable path = true) →
  ∃ files' back front,
    build_pdf_dir natsorted imgs_path listing num_blanks files = Ok files' ∧
    files' !! pdf_path imgs_path "-back.pdf" = Some back ∧
    files' !! pdf_path imgs_path "-front.pdf" = Some front ∧
    (∀ name, name ≠ pdf_path imgs_path "-back.pdf" →
             name ≠ pdf_path imgs_path "-front.pdf" → files' !! name = files !! name) ∧
    registry_consistent back ∧ registry_consistent front ∧
    NoDup (image_refs back) ∧ NoDup (image_refs front).
Proof.
  intros Hname Hwb Hwf Hnd Hall.
  destruct (documents_references_resolve listing num_blanks Hnd Hall)
    as (back & front & Hdoc & Hcb & Hcf & Hrb & Hrf).
  destruct (close_registry_consistent back Hcb) as [Hcb' Hrb'].
  destruct (close_registry_consistent front Hcf) as [Hcf' Hrf'].
  destruct (written_files imgs_path (close back) (close front) files) as (Hb & Hf & Hother).
  eexists _, (close back), (close front). split.
  { unfold build_pdf_dir. apply build_pdf_ok. by exists back, front. }
  auto 10.
Qed.

End Directory.

Lemma build_pdf_dir_references_resolve_witness :
  (∀ paths : list Path, id paths ≡ₚ paths) ∧
  dir_name sample_dir ≠ ""%string ∧
  @can_write sample_disk (pdf_path sample_dir "-back.pdf") = true ∧
  @can_write sample_disk (pdf_path sample_dir "-front.pdf") = true ∧
  NoDup (path_str <$> sample_listing.*1) ∧
  (∀ path, path ∈ iter_img_paths sample_listing → @embeddable sample_fpdf path = true) ∧
  ∃ files' back front,
    @build_pdf_dir sample_fpdf sample_disk id sample_dir sample_listing 1 ∅ = Ok files' ∧
    files' !! "m-back.pdf" = Some back ∧ files' !! "m-front.pdf" = Some front ∧
    registry_consistent back ∧ registry_consistent front ∧
    NoDup (image_refs back) ∧ NoDup (image_refs front).
Proof.
  assert (Hid : ∀ paths : list Path, id paths ≡ₚ paths) by done.
  assert (Hname : dir_name sample_dir ≠ ""%string) by done.
  assert (Hnd : NoDup (path_str <$> sample_listing.*1))
    by (apply (bool_decide_unpack _); vm_compute; exact I).
  assert (Hall : ∀ path, path ∈ iter_img_paths sample_listing →
                         @embeddable sample_fpdf path = true).
  { intros path Hin. vm_compute in Hin.
    repeat (apply elem_of_cons in Hin as [Hin|Hin]; [by subst path|]).
    by apply elem_of_nil in Hin. }
  split; [exact Hid|]. split; [exact Hname|]. split; [reflexivity|]. split; [reflexivity|].
  split; [exact Hnd|]. split; [exact Hall|].
  destruct (@build_pdf_dir_references_resolve sample_fpdf sample_disk id Hid sample_dir
              sample_listing 1 ∅ Hname eq_refl eq_refl Hnd Hall)
    as (files' & back & front & Hrun & Hb & Hf & _ & Hrest).
  exists files', back, front. exact (conj Hrun (conj Hb (conj Hf Hrest))).
Defined.

(** ** More on the placement *)

Section PlacementMore.

Local Open Scope Q_scope.

Lemma inject_Z_nonzero (z : Z) : z ≠ 0%Z → ¬ inject_Z z == 0.
Proof. intros Hz. change 0 with (inject_Z 0). by rewrite inject_Z_injective. Qed.

Lemma region_ratio_positive :
  0 < (page_width / 2 - image_margin - image_margin) /
      (page_height - image_margin - image_margin).
Proof. reflexivity. Qed.

Lemma region_height_nonzero : ¬ page_height - image_margin - image_margin == 0.
Proof. intros Heq. discriminate Heq. Qed.

Lemma region_ratio_nonzero :
  ¬ (page_width / 2 - image_margin - image_margin) /
    (page_height - image_margin - image_margin) == 0.
Proof. intros Heq. discriminate Heq. Qed.

(** X9. The left and the right half of a sheet treat an image alike: the
    rectangle on the right is the rectangle on the left moved by half the
    sheet width, with the same size and the same height above the edge. *)
Theorem place_right_is_left_shifted (iw ih : Z) :
  ih ≠ 0%Z →
  ∃ l r, place iw ih false = Ok l ∧ place iw ih true = Ok r ∧
         x r == x l + page_width / 2 ∧ y r == y l ∧ w r == w l ∧ h r == h l.
Proof.
  intros Hih. pose proof (inject_Z_nonzero ih Hih) as HH.
  pose proof region_ratio_positive as Hb0.
  unfold place. rewrite !truediv_ok by done. cbn [rbind].
  rewrite ?(truediv_ok _ _ region_height_nonzero). cbn [rbind].
  destruct (Qlt_le_dec _ _) as [Hlt|Hle].
  - assert (Ha : ¬ inject_Z iw / inject_Z ih == 0) by lra.
    rewrite !(truediv_ok _ _ Ha). cbn [rbind]. do 2 eexists.
    split; [reflexivity|]. split; [reflexivity|]. cbn [x y w h].
    repeat split; try reflexivity; ring.
  - rewrite !(truediv_ok _ _ region_ratio_nonzero). cbn [rbind]. do 2 eexists.
    split; [reflexivity|]. split; [reflexivity|]. cbn [x y w h].
    repeat split; try reflexivity; ring.
Qed.

Lemma same_ratio (iw1 ih1 iw2 ih2 : Z) :
  ih1 ≠ 0%Z → ih2 ≠ 0%Z → (iw1 * ih2 = iw2 * ih1)%Z →
  inject_Z iw1 / inject_Z ih1 == inject_Z iw2 / inject_Z ih2.
Proof.
  intros H1 H2 Heq.
  pose proof (inject_Z_nonzero ih1 H1). pose proof (inject_Z_nonzero ih2 H2).
  assert (Hq : inject_Z iw1 * inject_Z ih2 == inject_Z iw2 * inject_Z ih1).
  { rewrite <- !inject_Z_mult. by rewrite Heq. }
  transitivity (inject_Z iw1 * inject_Z ih2 / (inject_Z ih1 * inject_Z ih2));
    [field; done|].
  rewrite Hq. field. done.
Qed.

(** X10. Only the proportions of an image count: two images with the same
    ratio of width to height, such as an image and a rescaled copy, get
    the same rectangle. *)
Theorem place_depends_on_ratio (iw1 ih1 iw2 ih2 : Z) (right_side : bool) :
  ih1 ≠ 0%Z → ih2 ≠ 0%Z → (iw1 * ih2 = iw2 * ih1)%Z →
  ∃ r1 r2, place iw1 ih1 right_side = Ok r1 ∧ place iw2 ih2 right_side = Ok r2 ∧
           x r1 == x r2 ∧ y r1 == y r2 ∧ w r1 == w r2 ∧ h r1 == h r2.
Proof.
  intros H1 H2 Heq. pose proof (same_ratio _ _ _ _ H1 H2 Heq) as Ha.
  pose proof (inject_Z_nonzero ih1 H1). pose proof (inject_Z_nonzero ih2 H2).
  pose proof region_ratio_positive as Hb0.
  unfold place. rewrite !truediv_ok by done. cbn [rbind].
  rewrite ?(truediv_ok _ _ region_height_nonzero). cbn [rbind].
  destruct (Qlt_le_dec _ (inject_Z iw1 / inject_Z ih1)) as [Hlt1|Hle1];
    destruct (Qlt_le_dec _ (inject_Z iw2 / inject_Z ih2)) as [Hlt2|Hle2].
  - assert (Ha1 : ¬ inject_Z iw1 / inject_Z ih1 == 0) by lra.
    assert (Ha2 : ¬ inject_Z iw2 / inject_Z ih2 == 0) by lra.
    rewrite (truediv_ok _ _ Ha1), (truediv_ok _ _ Ha2). cbn [rbind]. do 2 eexists.
    split; [reflexivity|]. split; [reflexivity|]. cbn [x y w h].
    repeat split; try reflexivity; by rewrite Ha.
  - exfalso. rewrite Ha in Hlt1. lra.
  - exfalso. rewrite Ha in Hle1. lra.
  - rewrite !(truediv_ok _ _ region_ratio_nonzero). cbn [rbind]. do 2 eexists.
    split; [reflexivity|]. split; [reflexivity|]. cbn [x y w h].
    repeat split; try reflexivity; by rewrite Ha.
Qed.

End PlacementMore.

Lemma place_right_is_left_shifted_witness :
  800 ≠ 0 ∧
  ∃ l r, place 600 800 false = Ok l ∧ place 600 800 true = Ok r ∧
         (x r == x l + page_width / 2)%Q ∧ (y r == y l)%Q ∧
         (w r == w l)%Q ∧ (h r == h l)%Q.
Proof. split; [lia|]. exact (place_right_is_left_shifted 600 800 ltac:(lia)). Defined.

Lemma place_depends_on_ratio_witness :
  800 ≠ 0 ∧ 4 ≠ 0 ∧ 600 * 4 = 3 * 800 ∧
  ∃ r1 r2, place 600 800 true = Ok r1 ∧ place 3 4 true = Ok r2 ∧
           (x r1 == x r2)%Q ∧ (y r1 == y r2)%Q ∧ (w r1 == w r2)%Q ∧ (h r1 == h r2)%Q.
Proof.
  split; [lia|]. split; [lia|]. split; [lia|].
  exact (place_depends_on_ratio 600 800 3 4 true ltac:(lia) ltac:(lia) ltac:(lia)).
Defined.

(** ** Splitting two-page spreads *)

Module SplitFacts.

Import Split.

Lemma halves_Some (img : Image) (a b : box) :
  halves img = Some (a, b) ↔
  height img < width img ∧
  a = (width img / 2, 0, width img, height img) ∧
  b = (0, 0, width img / 2, height img).
Proof.
  unfold halves. destruct (Z.ltb_spec (height img) (width img)); split.
  - intros [= <- <-]. done.
  - intros (_ & -> & ->). done.
  - done.
  - intros [? _]. lia.
Qed.

(** X11. The two boxes cut from a landscape image share the cut at half
    the width and have the image's full height, so every column of the
    image is in exactly one half; the right half is as wide as the left
    one or one column wider, and for an image with at least one row each
    half has at least one column. *)
Theorem halves_tile (img : Image) (a b : box) :
  halves img = Some (a, b) →
  let '(ax0, ay0, ax1, ay1) := a in
  let '(bx0, by0, bx1, by1) := b in
  (bx0 = 0 ∧ bx1 = ax0 ∧ ax1 = width img) ∧
  (ay0 = 0 ∧ by0 = 0 ∧ ay1 = height img ∧ by1 = height img) ∧
  width (crop img b) + width (crop img a) = width img ∧
  height (crop img a) = height img ∧ height (crop img b) = height img ∧
  0 ≤ width (crop img a) - width (crop img b) ≤ 1 ∧
  (0 < height img → 0 < width (crop img b) ∧ 0 < width (crop img a)).
Proof.
  intros (Hls & -> & ->)%halves_Some. simpl. repeat split; lia.
Qed.

(** X12. The halves of a spread that is at most twice as wide as high are
    not landscape: a second run of [split_images] leaves them alone. The
    right half of a wider image is landscape again. *)
Theorem halves_not_split_again (img : Image) (a b : box) :
  halves img = Some (a, b) →
  (halves (crop img a) = None ↔ width img ≤ 2 * height img) ∧
  (width img ≤ 2 * height img → halves (crop img b) = None).
Proof.
  intros (Hls & -> & ->)%halves_Some. unfold halves. simpl. split; [split|].
  - destruct (Z.ltb_spec (height img - 0) (width img - width img / 2)); [done|lia].
  - intros Hw. destruct (Z.ltb_spec (height img - 0) (width img - width img / 2));
      [lia|done].
  - intros Hw. destruct (Z.ltb_spec (height img - 0) (width img / 2 - 0)); [lia|done].
Qed.




Section Files.

Context `{Pillow}.


Lemma split_image_portrait (path : Path) (fs : gmap string Image) (img : Image) :
  fs !! path_str path = Some img → width img ≤ height img →
  split_image path fs = Done fs.
Proof.
  intros Himg Hp. unfold split_image, halves. rewrite Himg.
  destruct (Z.ltb_spec (height img) (width img)); [lia|done].
Qed.

(** X14. When every image file found is portrait or square,
    [split_images] changes nothing. *)
Theorem split_images_portrait (listing : list (Path * bool)) (fs : gmap string Image) :
  (∀ path, path ∈ iter_img_paths listing →
           ∃ img, fs !! path_str path = Some img ∧ width img ≤ height img) →
  split_images listing fs = Done fs.
Proof.
  unfold split_images. induction (iter_img_paths listing) as [|path paths IH];
    intros Hall; [done|].
  destruct (Hall path) as (img & Himg & Hp); [by left|].
  simpl. rewrite (split_image_portrait path fs img Himg Hp).
  apply IH. intros p Hin. apply Hall. by right.
Qed.



End Files.

End SplitFacts.

Lemma halves_tile_witness :
  Split.halves (Split.mkImage 1001 700 "RGB") = Some ((500, 0, 1001, 700), (0, 0, 500, 700)) ∧
  Split.width (Split.crop (Split.mkImage 1001 700 "RGB") (0, 0, 500, 700)) +
  Split.width (Split.crop (Split.mkImage 1001 700 "RGB") (500, 0, 1001, 700)) = 1001.
Proof.
  split; [reflexivity|].
  exact (proj1 (proj2 (proj2 (SplitFacts.halves_tile (Split.mkImage 1001 700 "RGB")
    (500, 0, 1001, 700) (0, 0, 500, 700) eq_refl)))).
Defined.

Lemma halves_not_split_again_witness :
  Split.halves (Split.mkImage 1001 700 "RGB") = Some ((500, 0, 1001, 700), (0, 0, 500, 700)) ∧
  Split.halves (Split.crop (Split.mkImage 1001 700 "RGB") (500, 0, 1001, 700)) = None.
Proof.
  split; [reflexivity|].
  apply (proj1 (SplitFacts.halves_not_split_again (Split.mkImage 1001 700 "RGB")
    (500, 0, 1001, 700) (0, 0, 500, 700) eq_refl)). simpl. lia.
Defined.


Lemma split_images_portrait_witness :
  let fs : gmap string Split.Image :=
    {[ "m/1.jpg" := Split.mkImage 600 800 "RGB"; "m/2.png" := Split.mkImage 600 800 "RGB";
       "m/3.jpeg" := Split.mkImage 700 700 "L" ]} in
  (∀ path, path ∈ iter_img_paths sample_listing →
     ∃ img, fs !! path_str path = Some img ∧ Split.width img ≤ Split.height img) ∧
  @Split.split_images sample_pillow sample_listing fs = Split.Done fs.
Proof.
  intros fs.
  assert (Hall : ∀ path, path ∈ iter_img_paths sample_listing →
     ∃ img, fs !! path_str path = Some img ∧ Split.width img ≤ Split.height img).
  { intros path Hin. vm_compute in Hin.
    repeat (apply elem_of_cons in Hin as [Hin|Hin];
            [subst path; eexists; split; [reflexivity|simpl; lia]|]).
    by apply elem_of_nil in Hin. }
  split; [exact Hall|].
  exact (@SplitFacts.split_images_portrait sample_pillow sample_listing fs Hall).
Defined.


(** ** The registry and the page numbers, whatever the paths *)

#[local] Set Warnings "-clear-no-such-hyp".

(** A set built from a list has at most as many elements as the list, and
    as many exactly when the list has no repetition. *)
Lemma size_list_to_set_NoDup (names : list string) :
  (size (list_to_set names : gset string) ≤ length names)%nat ∧
  (size (list_to_set names : gset string) = length names ↔ NoDup names).
Proof.
  induction names as [|x names [IHle IHeq]].
  - split; [done|]. split; [constructor|done].
  - simpl. destruct (decide (x ∈ names)) as [Hin|Hnot].
    + replace ({[x]} ∪ list_to_set names : gset string)
        with (list_to_set names : gset string) by set_solver.
      split; [lia|]. split; [lia|]. intros Hnd. by apply NoDup_cons in Hnd as [? _].
    + rewrite size_union, size_singleton by set_solver.
      split; [lia|]. rewrite NoDup_cons, <- IHeq. split; [intros; split; [done|lia]|lia].
Qed.

Section Keys.

Context `{FPDF}.

Lemma half_keys (slot : Z * option Path) (right_side : bool) (s : state)
    (ps : list (list op)) (pg : list op) :
  drawable_slot slot → pages s = ps ++ [pg] →
  ∃ s' pg',
    match slot.2 with
    | Some p => bind (write_image p right_side) (λ _, write_page_num slot.1 right_side)
    | None => ret tt
    end s = Ok (tt, s') ∧
    pages s' = ps ++ [pg'] ∧
    dom (images s') = list_to_set (slot_names slot) ∪ dom (images s) ∧
    length (image_refs s') = (length (image_refs s) + length (slot_names slot))%nat.
Proof.
  intros Hslot Hp. unfold drawable_slot, slot_names in *.
  destruct slot as [n [p|]]; simpl in *.
  - destruct (write_image_pages p right_side s ps pg Hslot Hp)
      as (s1 & o1 & inf & Hw & Hp1 & _ & Ho1 & Himgs & _).
    destruct (write_page_num_pages n right_side s1 ps (pg ++ [o1]) Hp1)
      as (s2 & o2 & Hn & Hp2 & _ & Ho2 & Himgs2).
    exists s2, ((pg ++ [o1]) ++ [o2]). unfold bind. rewrite Hw, Hn.
    split; [done|]. split; [done|]. split.
    + rewrite Himgs2, Himgs, dom_insert_L. set_solver.
    + rewrite (image_refs_snoc s1 s2 ps (pg ++ [o1]) o2 Hp1 Hp2), Ho2.
      rewrite (image_refs_snoc s s1 ps pg o1 Hp Hp1), Ho1. simpl.
      rewrite app_nil_r, length_app. done.
  - exists s, pg. split; [done|]. split; [done|]. split; [set_solver|simpl; lia].
Qed.

Lemma add_sheet_keys (left right : Z * option Path) (s : state) :
  drawable_slot left → drawable_slot right →
  ∃ s', add_sheet left right s = Ok (tt, s') ∧
        dom (images s') = list_to_set (sheet_names (left, right)) ∪ dom (images s) ∧
        length (image_refs s') =
          (length (image_refs s) + length (sheet_names (left, right)))%nat.
Proof.
  intros Hl Hr. unfold sheet_names. simpl.
  set (s0 := {| images := images s; pages := pages s ++ [[]]; buffer := buffer s |}).
  assert (Hrefs0 : image_refs s0 = image_refs s).
  { unfold image_refs, content. simpl. rewrite concat_app. simpl. by rewrite app_nil_r. }
  destruct (half_keys left false s0 (pages s) [] Hl eq_refl)
    as (s1 & pg1 & H1 & Hp1 & Hdom1 & Hlen1).
  destruct (half_keys right true s1 (pages s) pg1 Hr Hp1)
    as (s2 & pg2 & H2 & Hp2 & Hdom2 & Hlen2).
  exists s2. split; [|split].
  - unfold add_sheet. destruct left as [ln lp], right as [rn rp].
    unfold bind at 1. unfold add_page. fold s0.
    unfold bind at 1. simpl in H1. rewrite H1. exact H2.
  - rewrite Hdom2, Hdom1. simpl. set_solver.
  - rewrite Hlen2, Hlen1, Hrefs0, length_app. lia.
Qed.

Lemma for_each_keys (sheets : list ((Z * option Path) * (Z * option Path))) (s : state) :
  Forall (λ lr, drawable_slot lr.1 ∧ drawable_slot lr.2) sheets →
  ∃ s', for_each (λ lr, add_sheet lr.1 lr.2) sheets s = Ok (tt, s') ∧
        dom (images s') = list_to_set (concat (sheet_names <$> sheets)) ∪ dom (images s) ∧
        length (image_refs s') =
          (length (image_refs s) + length (concat (sheet_names <$> sheets)))%nat.
Proof.
  intros Hall. revert s. induction Hall as [|[l r] sheets [Hl Hr] _ IH]; intros s.
  - exists s. split; [done|]. split; [set_solver|simpl; lia].
  - destruct (add_sheet_keys l r s Hl Hr) as (s1 & Hadd & Hdom1 & Hlen1).
    destruct (IH s1) as (s2 & Hrun & Hdom2 & Hlen2).
    exists s2. cbn [for_each]. unfold bind. simpl. rewrite Hadd, Hrun.
    split; [done|]. split.
    + rewrite Hdom2, Hdom1. rewrite list_to_set_app_L. set_solver.
    + rewrite Hlen2, Hlen1, length_app.
      change (list_fmap _ _ sheet_names sheets) with (sheet_names <$> sheets). lia.
Qed.

(** X16. However often a path occurs on the sheets, the registry of the
    finished document has exactly one entry for each distinct path drawn,
    while the content refers to an image once for every image drawn: with
    a repeated path there are more references than entries. *)
Theorem registry_keys (left_pages right_pages : list (Z * option Path)) :
  Forall (λ lr, drawable_slot lr.1 ∧ drawable_slot lr.2) (zip left_pages right_pages) →
  let names := concat (sheet_names <$> zip left_pages right_pages) in
  ∃ s, __init__ left_pages right_pages = Ok s ∧
       dom (images s) = list_to_set names ∧
       length (image_refs s) = length names ∧
       (size (images s) ≤ length (image_refs s))%nat ∧
       (size (images s) = length (image_refs s) ↔ NoDup names).
Proof.
  intros Hall names.
  destruct (for_each_keys _ empty Hall) as (s & Hrun & Hdom & Hlen).
  exists s. unfold __init__. rewrite Hrun. simpl in Hdom, Hlen.
  rewrite dom_empty_L, (right_id_L ∅ (∪)) in Hdom. fold names in Hdom, Hlen.
  rewrite <- size_dom, Hdom, Hlen.
  destruct (size_list_to_set_NoDup names) as [Hle Heq].
  repeat (split; [done|]). exact Heq.
Qed.

End Keys.

Lemma registry_keys_witness :
  let a := mkPath "m/1.jpg" ".jpg" in
  let pages_l := [(1, Some a); (3, Some a)] in
  let pages_r := [(2, None); (4, None)] in
  Forall (λ lr, @drawable_slot sample_fpdf lr.1 ∧ @drawable_slot sample_fpdf lr.2)
    (zip pages_l pages_r) ∧
  ∃ s, @__init__ sample_fpdf pages_l pages_r = Ok s ∧
       size (images s) = 1%nat ∧ length (image_refs s) = 2%nat.
Proof.
  intros a pages_l pages_r.
  assert (Hall : Forall (λ lr, @drawable_slot sample_fpdf lr.1 ∧
                               @drawable_slot sample_fpdf lr.2) (zip pages_l pages_r))
    by (repeat constructor).
  split; [exact Hall|].
  destruct (@registry_keys sample_fpdf pages_l pages_r Hall)
    as (s & Hs & Hdom & Hlen & _).
  exists s. split; [exact Hs|]. split; [|exact Hlen].
  rewrite <- size_dom, Hdom. reflexivity.
Defined.

(** ** What a successful build prints *)

Lemma enumerate_app {B} (l1 l2 : list B) (start : Z) :
  Py.enumerate (l1 ++ l2) start =
  Py.enumerate l1 start ++ Py.enumerate l2 (start + Py.len l1).
Proof.
  revert start. induction l1 as [|a l1 IH]; intros start; simpl.
  - unfold Py.len. simpl. by rewrite Z.add_0_r.
  - rewrite IH. do 3 f_equal. unfold Py.len. simpl. lia.
Qed.

Lemma placed_numbers_blanks {B} (n : nat) (start : Z) :
  omap placed_number (Py.enumerate (replicate n (@None B)) start) = [].
Proof. revert start. induction n as [|n IH]; intros start; [done|]. simpl. apply IH. Qed.

Lemma placed_numbers_images {B} (sorted : list B) (start : Z) :
  omap placed_number (Py.enumerate (Some <$> sorted) start) =
  (λ j : nat, start + Z.of_nat j) <$> seq 0 (length sorted).
Proof.
  revert start. induction sorted as [|a sorted IH]; intros start; [done|].
  csimpl. rewrite IH. f_equal; [lia|].
  rewrite <- fmap_S_seq, <- list_fmap_compose. apply list_fmap_ext.
  intros _ j _. simpl. lia.
Qed.

(** The numbers of the image slots of a padded list. *)
Lemma placed_numbers_padded {B} (sorted : list B) (num_blanks : Z) :
  omap placed_number (page_info (padded_img_paths sorted num_blanks) num_blanks) =
  (λ j : nat, Z.of_nat j + 1 + Z.max 0 (- num_blanks)) <$> seq 0 (length sorted).
Proof.
  unfold page_info, padded_img_paths, img_paths, empty_pages, Py.repeat_list.
  rewrite !enumerate_app, !omap_app, !placed_numbers_blanks, placed_numbers_images.
  rewrite app_nil_r. simpl. apply list_fmap_ext. intros _ j _.
  unfold Py.len. rewrite length_replicate. lia.
Qed.

Section Printed.

Context `{FPDF} `{Disk}.

(** The two documents of a padded list whose images can all be drawn. *)
Lemma documents_pages (padded : list (option Path)) (num_blanks : Z) (q : nat) :
  Py.len padded = 4 * Z.of_nat q →
  (∀ path, Some path ∈ padded → embeddable path = true) →
  ∃ back front,
    documents padded num_blanks = Ok (back, front) ∧
    length (pages back) = q ∧ length (pages front) = q ∧
    page_nums back ++ page_nums front
      ≡ₚ omap placed_number (page_info padded num_blanks).
Proof.
  intros Hn Hall.
  pose proof (plan_partition padded num_blanks q Hn) as Hpart. cbv zeta in Hpart.
  pose proof (drawable_slots padded num_blanks Hall) as Hslots.
  rewrite <- Hpart in Hslots.
  apply Forall_app in Hslots as [Hbl Hslots].
  apply Forall_app in Hslots as [Hbr Hslots].
  apply Forall_app in Hslots as [Hfl Hfr].
  pose proof (impose_progressions padded num_blanks q Hn) as [(Lbl & Lbr & Lfl & Lfr) _].
  cbv zeta in Lbl, Lbr, Lfl, Lfr.
  destruct (__init___pages _ _ Hbl Hbr) as (back & Hback & Hlb & Hnb).
  destruct (__init___pages _ _ Hfl Hfr) as (front & Hfront & Hlf & Hnf).
  rewrite length_zip_with in Hlb, Hlf. rewrite Lbl, Lbr in Hlb. rewrite Lfl, Lfr in Hlf.
  exists back, front. unfold documents. rewrite Hback, Hfront.
  split; [done|]. split; [lia|]. split; [lia|].
  rewrite Hnb, Hnf. rewrite !sheet_numbers_zip by congruence.
  rewrite <- Hpart, !omap_app. by rewrite <- !(assoc_L (++)).
Qed.

(** X17. When all [n] images can be drawn, the directory path has a name
    and both output files can be opened, [build_pdf] with [b >= 0] leading
    blanks writes two documents of [ceil((b + n) / 4)] pages each (of one
    page when that is zero) which together print the page numbers
    [1 .. n], each once; in general the count uses [max(b, 0)] and the
    numbers are shifted by [max(-b, 0)]. *)
Theorem build_pdf_prints (imgs_path : Dir) (sorted : list Path) (num_blanks : Z)
    (files : gmap string state) :
  dir_name imgs_path ≠ ""%string →
  can_write (pdf_path imgs_path "-back.pdf") = true →
  can_write (pdf_path imgs_path "-front.pdf") = true →
  Forall (λ path, embeddable path = true) sorted →
  let q := Z.to_nat ((Z.max 0 num_blanks + Py.len sorted + 3) / 4) in
  ∃ files' back front,
    build_pdf imgs_path sorted num_blanks files = Ok files' ∧
    files' !! pdf_path imgs_path "-back.pdf" = Some back ∧
    files' !! pdf_path imgs_path "-front.pdf" = Some front ∧
    length (pages back) = (q `max` 1)%nat ∧ length (pages front) = (q `max` 1)%nat ∧
    page_nums back ++ page_nums front
      ≡ₚ (λ j : nat, Z.of_nat j + 1 + Z.max 0 (- num_blanks)) <$> seq 0 (length sorted).
Proof.
  intros Hname Hwb Hwf Hall q.
  assert (Hq : Py.len (padded_img_paths sorted num_blanks) = 4 * Z.of_nat q).
  { unfold padded_img_paths, empty_pages.
    rewrite len_app, len_repeat_list, len_img_paths.
    pose proof (len_nonneg sorted). unfold q. lia. }
  destruct (documents_pages _ num_blanks q Hq) as (back & front & Hdoc & Hlb & Hlf & Hperm).
  { intros path Hin%elem_of_padded. rewrite Forall_forall in Hall. by apply Hall. }
  destruct (close_content back) as (Hcb & _ & Hpb).
  destruct (close_content front) as (Hcf & _ & Hpf).
  destruct (written_files imgs_path (close back) (close front) files) as (Hb & Hf & _).
  eexists _, (close back), (close front). split.
  { apply build_pdf_ok. by exists back, front. }
  split; [done|]. split; [done|].
  split; [by rewrite Hpb, Hlb|]. split; [by rewrite Hpf, Hlf|].
  unfold page_nums. rewrite Hcb, Hcf. fold (page_nums back) (page_nums front).
  by rewrite Hperm, placed_numbers_padded.
Qed.

End Printed.

Lemma build_pdf_prints_witness :
  dir_name sample_dir ≠ ""%string ∧
  @can_write sample_disk (pdf_path sample_dir "-back.pdf") = true ∧
  @can_write sample_disk (pdf_path sample_dir "-front.pdf") = true ∧
  Forall (λ path, @embeddable sample_fpdf path = true) six_pages ∧
  ∃ files' back front,
    @build_pdf sample_fpdf sample_disk sample_dir six_pages 3 ∅ = Ok files' ∧
    files' !! "m-back.pdf" = Some back ∧ files' !! "m-front.pdf" = Some front ∧
    length (pages back) = 3%nat ∧ length (pages front) = 3%nat ∧
    page_nums back ++ page_nums front ≡ₚ [1; 2; 3; 4; 5; 6].
Proof.
  assert (Hname : dir_name sample_dir ≠ ""%string) by done.
  assert (Hall : Forall (λ path, @embeddable sample_fpdf path = true) six_pages)
    by (repeat constructor).
  split; [exact Hname|]. split; [reflexivity|]. split; [reflexivity|]. split; [exact Hall|].
  exact (@build_pdf_prints sample_fpdf sample_disk sample_dir six_pages 3 ∅
           Hname eq_refl eq_refl Hall).
Defined.
